(** * livekit.agents.tts.tts : streaming and lifecycle layer of the TTS API

    A shallow embedding of [livekit-agents/livekit/agents/tts/tts.py]:
    the [TTS] provider base class, [ChunkedStream] and [SynthesizeStream].

    Python objects become records, methods become functions that take the
    object and return an [outcome] together with the updated object.
    Durations (Python [float] seconds) are rationals.  What the background
    task does while the consumer is suspended in [__anext__] is an explicit
    argument of type [Arrival]. *)

From Stdlib Require Import List String Bool QArith Lia Arith.
Import ListNotations.
Open Scope string_scope.
Open Scope list_scope.

Set Implicit Arguments.

(** ** Exceptions and call outcomes *)

Inductive exn : Type :=
| TimeoutError (msg : string)
| StopAsyncIteration
| RuntimeError (msg : string)
| NotImplementedError (msg : string)
| ValueError (msg : string)
| ChanClosed.

(** A call returns, raises, or never resumes. *)
Inductive outcome (A : Type) : Type :=
| Return (a : A)
| Raise (e : exn)
| Blocked.

Arguments Raise {A} e.
Arguments Blocked {A}.

(** The result of awaiting something: available at once, available after
    [d] seconds, or never. *)
Inductive Await (R : Type) : Type :=
| Now (r : R)
| After (d : Q) (r : R)
| Forever.

Arguments Forever {R}.

Definition Qltb (x y : Q) : bool := negb (Qle_bool y x).

(** ** Data model (lines 13-27) *)

(** [rtc.AudioFrame]: sample data with its sample rate and channel count. *)
Record AudioFrame : Type := mkAudioFrame {
  data : list Z;
  frame_sample_rate : Z;
  frame_num_channels : Z
}.

Record SynthesizedAudio : Type := mkSynthesizedAudio {
  request_id : string;
  segment_id : string;
  frame : AudioFrame;
  delta_text : string
}.

Record TTSCapabilities : Type := mkTTSCapabilities {
  streaming : bool
}.

(** ** [aio.Chan] *)

Module Chan.

(** Modelled from the spec: [utils/aio] is not part of the sources.  Section
    4.1 describes the queue as an ordered FIFO channel with an explicit
    closed state: [send] fails once closed, [receive] returns the next
    item or signals end-of-stream when closed and drained, [close] is
    idempotent and only marks the channel. *)
Record t (A : Type) : Type := mk {
  queue : list A;
  closed : bool
}.

Arguments mk {A} queue closed.

Definition new {A} : t A := mk [] false.

(** Modelled from the spec: [Chan.close] of [utils/aio]. *)
Definition close {A} (c : t A) : t A := mk (queue c) true.

(** Modelled from the spec: [Chan.send_nowait] of [utils/aio]; the channel
    is unbounded, so a send on an open channel never fails. *)
Definition send_nowait {A} (c : t A) (x : A) : outcome (t A) :=
  if closed c then Raise ChanClosed else Return (mk (queue c ++ [x]) false).

(** Modelled from the spec: the part of [Chan.__anext__] of [utils/aio]
    that needs no suspension.  [None] means the caller has to wait. *)
Definition anext_nowait {A} (c : t A) : option (outcome A * t A) :=
  match queue c with
  | x :: rest => Some (Return x, mk rest (closed c))
  | [] => if closed c then Some (Raise StopAsyncIteration, c) else None
  end.

End Chan.

(** ** The background task *)

Inductive TaskOutcome : Type := Succeeded | Failed | Cancelled.

Inductive TaskStatus : Type := Running | Done (o : TaskOutcome).

(** The only done-callback the module registers is
    [lambda _: self._event_ch.close()] (lines 75 and 120). *)
Inductive Callback : Type := CloseEventCh.

Record Task : Type := mkTask {
  status : TaskStatus;
  done_callbacks : list Callback
}.

(** [asyncio.create_task] followed by [add_done_callback]. *)
Definition create_task : Task := mkTask Running [].

Definition add_done_callback (t : Task) (cb : Callback) : Task :=
  mkTask (status t) (done_callbacks t ++ [cb]).

(** What the background task does while the consumer is suspended on an
    empty, open event channel. *)
Inductive Arrival : Type :=
| Sends (d : Q) (ev : SynthesizedAudio)
| Terminates (d : Q) (o : TaskOutcome)
| Silent.

(** ** State shared by both stream classes

    [ChunkedStream] and [SynthesizeStream] carry the same five attributes
    and their [__anext__] bodies (lines 95-106 and 166-177) are the same
    text; the shared part is modelled once. *)

Record StreamCore : Type := mkCore {
  _event_ch : Chan.t SynthesizedAudio;
  _task : Task;
  _connect_timeout : Q;
  _keepalive_timeout : Q;
  _timeout : Q
}.

Definition set_event_ch (s : StreamCore) (c : Chan.t SynthesizedAudio) :=
  mkCore c (_task s) (_connect_timeout s) (_keepalive_timeout s) (_timeout s).

Definition set_task (s : StreamCore) (t : Task) :=
  mkCore (_event_ch s) t (_connect_timeout s) (_keepalive_timeout s) (_timeout s).

Definition set_timeout (s : StreamCore) (q : Q) :=
  mkCore (_event_ch s) (_task s) (_connect_timeout s) (_keepalive_timeout s) q.

Definition run_callback (s : StreamCore) (cb : Callback) : StreamCore :=
  match cb with
  | CloseEventCh => set_event_ch s (Chan.close (_event_ch s))
  end.

(** The task reaches a final state: asyncio runs its done-callbacks, whatever
    the outcome.  A task that is already done stays as it is. *)
Definition task_done (o : TaskOutcome) (s : StreamCore) : StreamCore :=
  match status (_task s) with
  | Done _ => s
  | Running =>
      fold_left run_callback (done_callbacks (_task s))
        (set_task s (mkTask (Done o) (done_callbacks (_task s))))
  end.

(** The running task puts an event on the event channel. *)
Definition task_send (ev : SynthesizedAudio) (s : StreamCore) : StreamCore :=
  match status (_task s) with
  | Done _ => s
  | Running =>
      match Chan.send_nowait (_event_ch s) ev with
      | Return c => set_event_ch s c
      | _ => s
      end
  end.

(** Modelled from the spec: [aio.gracefully_cancel] of [utils/aio] (section 5:
    cooperative cancellation, awaited until the task has stopped).  A task
    that is already done is left alone. *)
Definition gracefully_cancel (s : StreamCore) : StreamCore :=
  task_done Cancelled s.

(** Lines 72-78 and 118-123. *)
Definition core_init (connect_timeout keepalive_timeout : Q) : StreamCore :=
  mkCore Chan.new (add_done_callback create_task CloseEventCh)
         connect_timeout keepalive_timeout connect_timeout.

(** [self._event_ch.__anext__()] as an awaitable. *)
Definition event_anext (s : StreamCore) (env : Arrival)
  : Await (outcome SynthesizedAudio * StreamCore) :=
  match Chan.anext_nowait (_event_ch s) with
  | Some (r, c) => Now (r, set_event_ch s c)
  | None =>
      match status (_task s) with
      | Done _ => Forever
      | Running =>
          match env with
          | Sends d ev => After d (Return ev, s)
          | Terminates d o =>
              let s' := task_done o s in
              if Chan.closed (_event_ch s')
              then After d (Raise StopAsyncIteration, s')
              else Forever
          | Silent => Forever
          end
      end
  end.

(** [await aw] without a deadline. *)
Definition await_plain {R} (s : StreamCore) (aw : Await (outcome R * StreamCore))
  : outcome R * StreamCore :=
  match aw with
  | Now r => r
  | After _ r => r
  | Forever => (Blocked, s)
  end.

(** [asyncio.wait_for(aw, timeout)]: the awaitable is cancelled and
    [TimeoutError] raised unless it completes within [timeout]. *)
Definition wait_for {R} (s : StreamCore) (aw : Await (outcome R * StreamCore))
    (timeout : Q) : outcome R * StreamCore :=
  match aw with
  | Now r => r
  | After d r => if Qltb d timeout then r else (Raise (TimeoutError ""), s)
  | Forever => (Raise (TimeoutError ""), s)
  end.

(** Lines 95-106 and 166-177. *)
Definition core_anext (s : StreamCore) (env : Arrival)
  : outcome SynthesizedAudio * StreamCore :=
  let '(r, s1) :=
    if Qltb 0 (_timeout s) then
      match wait_for s (event_anext s env) (_timeout s) with
      | (Raise (TimeoutError _), s1) =>
          (Raise (TimeoutError "synthesis timed out"), s1)
      | other => other
      end
    else await_plain s (event_anext s env) in
  match r with
  | Return event => (Return event, set_timeout s1 (_keepalive_timeout s1))
  | _ => (r, s1)
  end.

(** Lines 90-93 and 153-154. *)
Definition core_aclose (s : StreamCore) : StreamCore :=
  let s1 := gracefully_cancel s in
  set_event_ch s1 (Chan.close (_event_ch s1)).

(** ** A small error monad for the synchronous methods *)

Definition bind {A B} (m : outcome A) (k : A -> outcome B) : outcome B :=
  match m with
  | Return a => k a
  | Raise e => Raise e
  | Blocked => Blocked
  end.

Notation "x <- m ;; k" := (bind m (fun x => k))
  (at level 61, m at next level, right associativity).

(** ** [misc.merge_frames] *)

Definition same_format (f g : AudioFrame) : bool :=
  Z.eqb (frame_sample_rate f) (frame_sample_rate g)
  && Z.eqb (frame_num_channels f) (frame_num_channels g).

(** Modelled from the spec: [misc.merge_frames] of [utils/misc] is not part
    of the sources.  Section 4.2 says that the received frames are
    concatenated into one contiguous audio buffer, section 8 that the frames
    have the same sample rate and channel count.  The spec is silent on an
    empty list and on frames of different formats; the model raises there. *)
Definition merge_frames (frames : list AudioFrame) : outcome AudioFrame :=
  match frames with
  | [] => Raise (ValueError "no frames to merge")
  | f :: _ =>
      if forallb (same_format f) frames
      then Return (mkAudioFrame (List.concat (map data frames))
                                (frame_sample_rate f) (frame_num_channels f))
      else Raise (ValueError "frame format mismatch")
  end.

(** ** [ChunkedStream] (lines 69-109) *)

Module ChunkedStream.

(** The object holds exactly the shared attributes. *)
Definition t : Type := StreamCore.

Definition __init__ (connect_timeout keepalive_timeout : Q) : t :=
  core_init connect_timeout keepalive_timeout.

Definition __anext__ (self : t) (env : Arrival)
  : outcome SynthesizedAudio * t :=
  core_anext self env.

Definition aclose (self : t) : t := core_aclose self.

(** The [async for] loop of [collect] (lines 83-84).  [script] lists what
    the background task does at each suspension of the loop; [None] is
    returned when [fuel] iterations did not finish the loop. *)
Fixpoint collect_loop (fuel : nat) (self : t) (script : list Arrival)
    (frames : list AudioFrame) : option (outcome (list AudioFrame) * t) :=
  match fuel with
  | O => None
  | S fuel' =>
      let env := hd Silent script in
      let rest :=
        match Chan.anext_nowait (_event_ch self) with
        | Some _ => script
        | None => tl script
        end in
      match __anext__ self env with
      | (Return ev, self') =>
          collect_loop fuel' self' rest (frames ++ [frame ev])
      | (Raise StopAsyncIteration, self') => Some (Return frames, self')
      | (Raise e, self') => Some (Raise e, self')
      | (Blocked, self') => Some (Blocked, self')
      end
  end.

(** Every iteration takes an item from the queue or a step of the script,
    and an exhausted script leaves the loop, so this fuel is enough
    ([collect_loop_total] below). *)
Definition collect_fuel (self : t) (script : list Arrival) : nat :=
  S (List.length (Chan.queue (_event_ch self)) + List.length script).

(** Lines 80-85. *)
Definition collect (self : t) (script : list Arrival)
  : option (outcome AudioFrame * t) :=
  match collect_loop (collect_fuel self script) self script [] with
  | Some (Return frames, self') => Some (merge_frames frames, self')
  | Some (Raise e, self') => Some (Raise e, self')
  | Some (Blocked, self') => Some (Blocked, self')
  | None => None
  end.

End ChunkedStream.

(** ** [SynthesizeStream] (lines 112-180) *)

Module SynthesizeStream.

(** What travels on the input channel: [Union[str, _FlushSentinel]]. *)
Inductive Input : Type :=
| Token (token : string)
| _FlushSentinel.

(** [cls] is [f"{cls.__module__}.{cls.__name__}"] of the concrete class. *)
Record t : Type := mk {
  cls : string;
  _input_ch : Chan.t Input;
  core : StreamCore;
  _standby : bool
}.

Definition set_input_ch (s : t) (c : Chan.t Input) : t :=
  mk (cls s) c (core s) (_standby s).

Definition set_core (s : t) (c : StreamCore) : t :=
  mk (cls s) (_input_ch s) c (_standby s).

(** Lines 116-124. *)
Definition __init__ (cls : string) (connect_timeout keepalive_timeout : Q) : t :=
  mk cls Chan.new (core_init connect_timeout keepalive_timeout) true.

Definition standby (self : t) : bool := _standby self.

(** The two [RuntimeError]s of lines 159 and 164, under the names the
    specification gives them. *)
Definition StreamClosed (self : t) : exn :=
  RuntimeError (cls self ++ " is closed")%string.

Definition InputEnded (self : t) : exn :=
  RuntimeError (cls self ++ " input ended")%string.

(** Lines 156-159. *)
Definition _check_not_closed (self : t) : outcome unit :=
  if Chan.closed (_event_ch (core self))
  then Raise (StreamClosed self)
  else Return tt.

(** Lines 161-164. *)
Definition _check_input_not_ended (self : t) : outcome unit :=
  if Chan.closed (_input_ch self)
  then Raise (InputEnded self)
  else Return tt.

(** Lines 133-137. *)
Definition push_text (self : t) (token : string) : outcome t :=
  _ <- _check_input_not_ended self ;;
  _ <- _check_not_closed self ;;
  c <- Chan.send_nowait (_input_ch self) (Token token) ;;
  Return (set_input_ch self c).

(** Lines 139-143. *)
Definition flush (self : t) : outcome t :=
  _ <- _check_input_not_ended self ;;
  _ <- _check_not_closed self ;;
  c <- Chan.send_nowait (_input_ch self) _FlushSentinel ;;
  Return (set_input_ch self c).

(** Lines 145-148. *)
Definition end_input (self : t) : outcome t :=
  self1 <- flush self ;;
  Return (set_input_ch self1 (Chan.close (_input_ch self1))).

(** Lines 150-154. *)
Definition aclose (self : t) : t :=
  let self1 := set_input_ch self (Chan.close (_input_ch self)) in
  set_core self1 (core_aclose (core self1)).

(** Lines 166-177. *)
Definition __anext__ (self : t) (env : Arrival)
  : outcome SynthesizedAudio * t :=
  let '(r, c) := core_anext (core self) env in
  (r, set_core self c).

(** The background task takes the next item of the input channel, if one
    is buffered; a closed channel still hands out what it holds. *)
Definition task_take_input (self : t) : option Input * t :=
  match Chan.anext_nowait (_input_ch self) with
  | Some (Return x, c) => (Some x, set_input_ch self c)
  | _ => (None, self)
  end.

End SynthesizeStream.

(** ** [TTS] (lines 30-66) *)

Module TTS.

Record t : Type := mk {
  _capabilities : TTSCapabilities;
  _sample_rate : Z;
  _num_channels : Z;
  _connect_timeout : Q;
  _keepalive_timeout : Q
}.

(** Lines 31-44. *)
Definition __init__ (capabilities : TTSCapabilities)
    (sample_rate num_channels : Z)
    (connect_timeout keepalive_timeout : Q) : t :=
  mk capabilities sample_rate num_channels connect_timeout keepalive_timeout.

(** Lines 46-56. *)
Definition capabilities (self : t) : TTSCapabilities := _capabilities self.
Definition sample_rate (self : t) : Z := _sample_rate self.
Definition num_channels (self : t) : Z := _num_channels self.

(** Lines 61-64. *)
Definition stream (self : t) : outcome SynthesizeStream.t * t :=
  (Raise (NotImplementedError
     "streaming is not supported by this TTS, please use a different TTS or use a StreamAdapter"),
   self).

(** Line 66. *)
Definition aclose (self : t) : outcome unit * t := (Return tt, self).

End TTS.

(** ** Sequences of operations on a stream

    The consumer's calls and the steps of the background task, interleaved
    in any order.  [Some r] records the outcome of a [__anext__] call. *)

Inductive CoreOp : Type :=
| CNext (env : Arrival)
| CAclose
| CTaskSend (ev : SynthesizedAudio)
| CTaskDone (o : TaskOutcome).

Definition core_step (s : StreamCore) (op : CoreOp)
  : StreamCore * option (outcome SynthesizedAudio) :=
  match op with
  | CNext env => let '(r, s') := core_anext s env in (s', Some r)
  | CAclose => (core_aclose s, None)
  | CTaskSend ev => (task_send ev s, None)
  | CTaskDone o => (task_done o s, None)
  end.

Definition log {A} (r : option A) (tr : list A) : list A :=
  match r with
  | Some a => tr ++ [a]
  | None => tr
  end.

Fixpoint core_run_from (ops : list CoreOp) (s : StreamCore)
    (tr : list (outcome SynthesizedAudio))
  : StreamCore * list (outcome SynthesizedAudio) :=
  match ops with
  | [] => (s, tr)
  | op :: ops' =>
      let '(s', r) := core_step s op in core_run_from ops' s' (log r tr)
  end.

Definition core_run (ops : list CoreOp) (s : StreamCore) :=
  core_run_from ops s [].

Definition is_return {A} (r : outcome A) : bool :=
  match r with
  | Return _ => true
  | _ => false
  end.

(** Some [__anext__] call of the trace returned an event. *)
Definition received {A} (tr : list (outcome A)) : bool := existsb is_return tr.

(** The consumer calls [__anext__] once per element of [envs]. *)
Fixpoint core_iterate (envs : list Arrival) (s : StreamCore)
  : list (outcome SynthesizedAudio) * StreamCore :=
  match envs with
  | [] => ([], s)
  | env :: envs' =>
      let '(r, s') := core_anext s env in
      let '(rs, s'') := core_iterate envs' s' in
      (r :: rs, s'')
  end.

Module SynthesizeOps.
Import SynthesizeStream.

Inductive Op : Type :=
| PushText (token : string)
| Flush
| EndInput
| Aclose
| Next (env : Arrival)
| TaskSend (ev : SynthesizedAudio)
| TaskDone (o : TaskOutcome)
| TaskTakeInput.

(** A call that raises leaves the object as it was. *)
Definition keep (self : t) (r : outcome t) : t :=
  match r with
  | Return self' => self'
  | _ => self
  end.

Definition step (s : t) (op : Op) : t * option (outcome SynthesizedAudio) :=
  match op with
  | PushText token => (keep s (push_text s token), None)
  | Flush => (keep s (flush s), None)
  | EndInput => (keep s (end_input s), None)
  | Aclose => (aclose s, None)
  | Next env => let '(r, s') := __anext__ s env in (s', Some r)
  | TaskSend ev => (set_core s (task_send ev (core s)), None)
  | TaskDone o => (set_core s (task_done o (core s)), None)
  | TaskTakeInput => (snd (task_take_input s), None)
  end.

Fixpoint run_from (ops : list Op) (s : t)
    (tr : list (outcome SynthesizedAudio))
  : t * list (outcome SynthesizedAudio) :=
  match ops with
  | [] => (s, tr)
  | op :: ops' => let '(s', r) := step s op in run_from ops' s' (log r tr)
  end.

Definition run (ops : list Op) (s : t) := run_from ops s [].

(** The background task takes [n] items from the input channel. *)
Fixpoint take_inputs (n : nat) (s : t) : list Input * t :=
  match n with
  | O => ([], s)
  | S n' =>
      match task_take_input s with
      | (Some x, s') => let '(xs, s'') := take_inputs n' s' in (x :: xs, s'')
      | (None, s') => ([], s')
      end
  end.

End SynthesizeOps.

(** ** What it means for a call to wait under a deadline *)

(** The consumer has to suspend: nothing is buffered, the channel is open
    and the task is still running. *)
Definition waiting (s : StreamCore) : Prop :=
  Chan.queue (_event_ch s) = [] /\ Chan.closed (_event_ch s) = false
  /\ status (_task s) = Running.

Definition timed_out : exn := TimeoutError "synthesis timed out".

(** A stream whose [__anext__] is [next] waits at most [t] seconds when [t]
    is positive and without a limit otherwise; [suspends] says that the call
    has to suspend. *)
Definition applies_timeout (suspends : Prop)
    (next : Arrival -> outcome SynthesizedAudio) (t : Q) : Prop :=
  (0 < t ->
     (forall env, next env <> Blocked)
     /\ (suspends -> forall d ev,
           (d < t -> next (Sends d ev) = Return ev)
           /\ (t <= d -> next (Sends d ev) = Raise timed_out))
     /\ (suspends -> next Silent = Raise timed_out))
  /\ (t <= 0 ->
     (forall env msg, next env <> Raise (TimeoutError msg))
     /\ (suspends -> forall d ev, next (Sends d ev) = Return ev)
     /\ (suspends -> next Silent = Blocked)).

Definition chunked_applies (s : ChunkedStream.t) (t : Q) : Prop :=
  applies_timeout (waiting s)
    (fun env => fst (ChunkedStream.__anext__ s env)) t.

Definition synthesize_applies (s : SynthesizeStream.t) (t : Q) : Prop :=
  applies_timeout (waiting (SynthesizeStream.core s))
    (fun env => fst (SynthesizeStream.__anext__ s env)) t.

(** Nothing arrives within [t] seconds. *)
Definition late (t : Q) (env : Arrival) : Prop :=
  match env with
  | Sends d _ => t <= d
  | Terminates d _ => t <= d
  | Silent => True
  end.

(** The part of a [SynthesizeStream] operation that acts on the attributes
    shared with [ChunkedStream]. *)
Definition core_of_op (op : SynthesizeOps.Op) : option CoreOp :=
  match op with
  | SynthesizeOps.Next env => Some (CNext env)
  | SynthesizeOps.Aclose => Some CAclose
  | SynthesizeOps.TaskSend ev => Some (CTaskSend ev)
  | SynthesizeOps.TaskDone o => Some (CTaskDone o)
  | _ => None
  end.

Fixpoint core_ops (ops : list SynthesizeOps.Op) : list CoreOp :=
  match ops with
  | [] => []
  | op :: ops' =>
      match core_of_op op with
      | Some cop => cop :: core_ops ops'
      | None => core_ops ops'
      end
  end.

(** What holds of every stream the constructors and the operations produce:
    the closing callback is registered, and a finished task has closed the
    event channel. *)
Definition core_inv (s : StreamCore) : Prop :=
  In CloseEventCh (done_callbacks (_task s))
  /\ (forall o, status (_task s) = Done o -> Chan.closed (_event_ch s) = true).

(** The deadline in force after a run with trace [tr]. *)
Definition schedule (ct kt : Q) (s : StreamCore)
    (tr : list (outcome SynthesizedAudio)) : Prop :=
  _connect_timeout s = ct /\ _keepalive_timeout s = kt
  /\ _timeout s = if received tr then kt else ct.

(** Sample values for the examples. *)
Definition frame1 : AudioFrame := mkAudioFrame [1; 2]%Z 24000 1.
Definition frame2 : AudioFrame := mkAudioFrame [3]%Z 24000 1.
Definition frame3 : AudioFrame := mkAudioFrame [4; 5; 6]%Z 24000 1.
Definition event1 : SynthesizedAudio := mkSynthesizedAudio "r1" "s0" frame1 "hel".
Definition event2 : SynthesizedAudio := mkSynthesizedAudio "r1" "s0" frame2 "lo".
Definition event3 : SynthesizedAudio := mkSynthesizedAudio "r2" "s1" frame3 "!".

(** The consumer iterates a [SynthesizeStream]. *)
Fixpoint synthesize_iterate (envs : list Arrival) (s : SynthesizeStream.t)
  : list (outcome SynthesizedAudio) * SynthesizeStream.t :=
  match envs with
  | [] => ([], s)
  | env :: envs' =>
      let '(r, s') := SynthesizeStream.__anext__ s env in
      let '(rs, s'') := synthesize_iterate envs' s' in
      (r :: rs, s'')
  end.

(** ** Scripts for [collect] *)

(** An arrival after [d] seconds meets the deadline [t]. *)
Definition within (t d : Q) : bool := negb (Qltb 0 t) || Qltb d t.

(** The task sends the events of [evs], each after its delay, and then ends
    after [dend] seconds. *)
Definition script_of (evs : list (Q * SynthesizedAudio)) (dend : Q)
    (o : TaskOutcome) : list Arrival :=
  map (fun p => Sends (fst p) (snd p)) evs ++ [Terminates dend o].

(** Every step of the script meets the deadline in force: [t] for the
    first, [kt] from the second on. *)
Fixpoint in_time (t kt : Q) (evs : list (Q * SynthesizedAudio)) (dend : Q)
  : bool :=
  match evs with
  | [] => within t dend
  | p :: rest => within t (fst p) && in_time kt kt rest dend
  end.

(** The task has sent the events of [pre] before the consumer starts. *)
Definition presend (pre : list SynthesizedAudio) (s : StreamCore) : StreamCore :=
  fold_left (fun s ev => task_send ev s) pre s.

(** ** A provider together with its streams *)

Record World : Type := mkWorld {
  provider : TTS.t;
  chunked : list ChunkedStream.t;
  synthesized : list SynthesizeStream.t
}.

Inductive WorldOp : Type :=
| ReadCapabilities
| ReadSampleRate
| ReadNumChannels
| CallSynthesize (text : string)
| CallStream
| CallAclose
| OnChunked (i : nat) (op : CoreOp)
| CollectChunked (i : nat) (script : list Arrival)
| OnSynthesize (i : nat) (op : SynthesizeOps.Op).

(** The [i]-th object of a list is replaced by what [f] makes of it. *)
Fixpoint update_at {A} (i : nat) (f : A -> A) (l : list A) : list A :=
  match l, i with
  | [], _ => []
  | x :: l', O => f x :: l'
  | x :: l', S i' => x :: update_at i' f l'
  end.

(** [synthesize] is abstract (line 59): the provider's implementation is
    the parameter [synthesize_impl]. *)
Definition world_step
    (synthesize_impl : TTS.t -> string -> ChunkedStream.t)
    (w : World) (op : WorldOp) : World :=
  match op with
  | ReadCapabilities =>
      let _ := TTS.capabilities (provider w) in w
  | ReadSampleRate =>
      let _ := TTS.sample_rate (provider w) in w
  | ReadNumChannels =>
      let _ := TTS.num_channels (provider w) in w
  | CallSynthesize text =>
      mkWorld (provider w)
              (chunked w ++ [synthesize_impl (provider w) text])
              (synthesized w)
  | CallStream =>
      mkWorld (snd (TTS.stream (provider w))) (chunked w) (synthesized w)
  | CallAclose =>
      mkWorld (snd (TTS.aclose (provider w))) (chunked w) (synthesized w)
  | OnChunked i cop =>
      mkWorld (provider w)
              (update_at i (fun s => fst (core_step s cop)) (chunked w))
              (synthesized w)
  | CollectChunked i script =>
      mkWorld (provider w)
              (update_at i
                 (fun s => match ChunkedStream.collect s script with
                           | Some (_, s') => s'
                           | None => s
                           end)
                 (chunked w))
              (synthesized w)
  | OnSynthesize i sop =>
      mkWorld (provider w) (chunked w)
              (update_at i (fun s => fst (SynthesizeOps.step s sop))
                 (synthesized w))
  end.

Definition world_run
    (synthesize_impl : TTS.t -> string -> ChunkedStream.t)
    (ops : list WorldOp) (w : World) : World :=
  fold_left (world_step synthesize_impl) ops w.

(** ** Further notions about streams *)

(** The default of [connect_timeout] and [keepalive_timeout] (lines 37-38,
    72 and 116). *)
Definition default_timeout : Q := 0.

(** Nothing is buffered, the event channel is closed and the task is done. *)
Definition exhausted (s : StreamCore) : Prop :=
  Chan.queue (_event_ch s) = [] /\ Chan.closed (_event_ch s) = true
  /\ exists o, status (_task s) = Done o.

(** [core_inv] together with its converse: the event channel is closed only
    once the task is done. *)
Definition core_wf (s : StreamCore) : Prop :=
  core_inv s
  /\ (Chan.closed (_event_ch s) = true -> exists o, status (_task s) = Done o).

Definition is_timeout {A} (r : outcome A) : bool :=
  match r with
  | Raise (TimeoutError _) => true
  | _ => false
  end.

(** Every event of [evs] meets the deadline in force: [t] for the first,
    [kt] from the second on. *)
Fixpoint all_within (t kt : Q) (evs : list (Q * SynthesizedAudio)) : bool :=
  match evs with
  | [] => true
  | p :: rest => within t (fst p) && all_within kt kt rest
  end.

(** The caller hands over the items of [ins] one by one, a token with
    [push_text] and a marker with [flush]; the first error ends the
    sequence. *)
Fixpoint send_all (ins : list SynthesizeStream.Input) (s : SynthesizeStream.t)
  : outcome SynthesizeStream.t :=
  match ins with
  | [] => Return s
  | SynthesizeStream.Token token :: rest =>
      s' <- SynthesizeStream.push_text s token ;; send_all rest s'
  | SynthesizeStream._FlushSentinel :: rest =>
      s' <- SynthesizeStream.flush s ;; send_all rest s'
  end.

(** * Properties *)

Lemma Qltb_lt x y : Qltb x y = true <-> x < y.
Proof.
  unfold Qltb. rewrite negb_true_iff. split; intro H.
  - apply Qnot_le_lt. intro L. apply Qle_bool_iff in L. congruence.
  - destruct (Qle_bool y x) eqn:E; [|reflexivity].
    apply Qle_bool_iff in E. exfalso. exact (Qlt_not_le _ _ H E).
Qed.

Lemma Qltb_ge x y : Qltb x y = false <-> y <= x.
Proof.
  unfold Qltb. rewrite negb_false_iff. apply Qle_bool_iff.
Qed.


(** ** One call of [__anext__] *)

Ltac open_core s :=
  destruct s as [[?q ?c] [?st ?cbs] ?ct ?kt ?t]; unfold waiting in *;
  cbn [_event_ch _task _timeout _keepalive_timeout _connect_timeout
       Chan.queue Chan.closed status done_callbacks] in *.

Ltac unfold_anext :=
  unfold core_anext, event_anext, wait_for, await_plain, Chan.anext_nowait,
    set_timeout, set_event_ch;
  cbn [_event_ch _task _timeout _keepalive_timeout _connect_timeout
       Chan.queue Chan.closed status done_callbacks fst snd].

Lemma core_anext_buffered s env ev rest :
  Chan.queue (_event_ch s) = ev :: rest ->
  core_anext s env =
    (Return ev,
     mkCore (Chan.mk rest (Chan.closed (_event_ch s))) (_task s)
            (_connect_timeout s) (_keepalive_timeout s) (_keepalive_timeout s)).
Proof.
  intros Hq. open_core s. subst. unfold_anext.
  destruct (Qltb 0 t); reflexivity.
Qed.

Lemma core_anext_exhausted s env :
  Chan.queue (_event_ch s) = [] -> Chan.closed (_event_ch s) = true ->
  core_anext s env = (Raise StopAsyncIteration, s).
Proof.
  intros Hq Hc. open_core s. subst. unfold_anext.
  destruct (Qltb 0 t); reflexivity.
Qed.

Lemma core_anext_in_time s d ev :
  waiting s -> 0 < _timeout s -> d < _timeout s ->
  core_anext s (Sends d ev) = (Return ev, set_timeout s (_keepalive_timeout s)).
Proof.
  intros (Hq & Hc & Hs) Ht Hd. open_core s. subst. unfold_anext.
  apply Qltb_lt in Ht, Hd. rewrite Ht, Hd. reflexivity.
Qed.

Lemma core_anext_untimed s d ev :
  waiting s -> _timeout s <= 0 ->
  core_anext s (Sends d ev) = (Return ev, set_timeout s (_keepalive_timeout s)).
Proof.
  intros (Hq & Hc & Hs) Ht. open_core s. subst. unfold_anext.
  apply Qltb_ge in Ht. rewrite Ht. reflexivity.
Qed.

Lemma core_anext_untimed_silent s :
  waiting s -> _timeout s <= 0 -> core_anext s Silent = (Blocked, s).
Proof.
  intros (Hq & Hc & Hs) Ht. open_core s. subst. unfold_anext.
  apply Qltb_ge in Ht. rewrite Ht. reflexivity.
Qed.

Lemma core_anext_late s env :
  waiting s -> 0 < _timeout s -> late (_timeout s) env ->
  core_anext s env = (Raise timed_out, s).
Proof.
  intros (Hq & Hc & Hs) Ht Hl. open_core s. subst. unfold_anext.
  apply Qltb_lt in Ht. rewrite Ht.
  destruct env as [d ev | d o |]; cbn [late] in Hl.
  - apply Qltb_ge in Hl. rewrite Hl. reflexivity.
  - destruct (Chan.closed _); [|reflexivity].
    apply Qltb_ge in Hl. rewrite Hl. reflexivity.
  - reflexivity.
Qed.

(** A call under a positive deadline always comes back. *)
Lemma core_anext_timed_returns s env :
  0 < _timeout s -> fst (core_anext s env) <> Blocked.
Proof.
  intros Ht. open_core s. unfold_anext. apply Qltb_lt in Ht. rewrite Ht.
  destruct q as [|x q]; [destruct c|]; cbn; try discriminate.
  destruct st; cbn; try discriminate.
  destruct env as [d ev | d o |]; cbn; try discriminate.
  - destruct (Qltb d t); cbn; discriminate.
  - destruct (Chan.closed _); cbn; try discriminate.
    destruct (Qltb d t); cbn; discriminate.
Qed.

(** Without a positive deadline no timeout is ever raised. *)
Lemma core_anext_untimed_no_timeout s env msg :
  _timeout s <= 0 -> fst (core_anext s env) <> Raise (TimeoutError msg).
Proof.
  intros Ht. open_core s. unfold_anext. apply Qltb_ge in Ht. rewrite Ht.
  destruct q as [|x q]; [destruct c|]; cbn; try discriminate.
  destruct st; cbn; try discriminate.
  destruct env as [d ev | d o |]; cbn; try discriminate.
  destruct (Chan.closed _); cbn; discriminate.
Qed.

(** The wait of a call is governed by the [_timeout] attribute. *)
Lemma applies_own_timeout s :
  applies_timeout (waiting s) (fun env => fst (core_anext s env)) (_timeout s).
Proof.
  split; intros Ht.
  - split; [|split].
    + intros env. now apply core_anext_timed_returns.
    + intros W d ev. split; intros Hd.
      * now rewrite core_anext_in_time.
      * now rewrite core_anext_late.
    + intros W. now rewrite core_anext_late.
  - split; [|split].
    + intros env msg. now apply core_anext_untimed_no_timeout.
    + intros W d ev. now rewrite core_anext_untimed.
    + intros W. now rewrite core_anext_untimed_silent.
Qed.

(** Every raised timeout carries the same message and changes nothing. *)
Lemma core_anext_timeout_inv s env msg s' :
  core_anext s env = (Raise (TimeoutError msg), s') ->
  msg = "synthesis timed out" /\ s' = s /\ 0 < _timeout s
  /\ Chan.queue (_event_ch s) = [] /\ Chan.closed (_event_ch s) = false.
Proof.
  open_core s. unfold_anext.
  destruct (Qltb 0 t) eqn:Ht.
  - apply Qltb_lt in Ht.
    destruct q as [|x q]; [destruct c|]; cbn; try discriminate.
    destruct st; cbn.
    + destruct env as [d ev | d o |]; cbn.
      * destruct (Qltb d t); cbn; intros H; inversion H; subst; auto 6.
      * destruct (Chan.closed _); cbn;
          [destruct (Qltb d t); cbn|]; intros H; inversion H; subst; auto 6.
      * intros H; inversion H; subst; auto 6.
    + intros H; inversion H; subst; auto 6.
  - destruct q as [|x q]; [destruct c|]; cbn; try discriminate.
    destruct st; cbn; try discriminate.
    destruct env as [d ev | d o |]; cbn; try discriminate.
    destruct (Chan.closed _); cbn; discriminate.
Qed.

(** ** The timeout attributes along a run *)

Lemma fold_callbacks_timeouts cbs : forall s,
  _connect_timeout (fold_left run_callback cbs s) = _connect_timeout s
  /\ _keepalive_timeout (fold_left run_callback cbs s) = _keepalive_timeout s
  /\ _timeout (fold_left run_callback cbs s) = _timeout s.
Proof.
  induction cbs as [|cb cbs IH]; intros s; cbn [fold_left]; [auto|].
  destruct (IH (run_callback s cb)) as (H1 & H2 & H3).
  rewrite H1, H2, H3. destruct cb. auto.
Qed.

Lemma task_done_timeouts o s :
  _connect_timeout (task_done o s) = _connect_timeout s
  /\ _keepalive_timeout (task_done o s) = _keepalive_timeout s
  /\ _timeout (task_done o s) = _timeout s.
Proof.
  unfold task_done. destruct (status (_task s)); [|auto].
  destruct (fold_callbacks_timeouts (done_callbacks (_task s))
              (set_task s (mkTask (Done o) (done_callbacks (_task s)))))
    as (H1 & H2 & H3).
  rewrite H1, H2, H3. auto.
Qed.

Lemma task_send_timeouts ev s :
  _connect_timeout (task_send ev s) = _connect_timeout s
  /\ _keepalive_timeout (task_send ev s) = _keepalive_timeout s
  /\ _timeout (task_send ev s) = _timeout s.
Proof.
  unfold task_send, Chan.send_nowait.
  destruct (status (_task s)); [|auto].
  destruct (Chan.closed (_event_ch s)); auto.
Qed.

Lemma core_aclose_timeouts s :
  _connect_timeout (core_aclose s) = _connect_timeout s
  /\ _keepalive_timeout (core_aclose s) = _keepalive_timeout s
  /\ _timeout (core_aclose s) = _timeout s.
Proof.
  unfold core_aclose, gracefully_cancel, set_event_ch.
  cbn [_connect_timeout _keepalive_timeout _timeout].
  apply task_done_timeouts.
Qed.

(** The deadline moves to [_keepalive_timeout] exactly when an event is
    returned; the two configured values never change. *)
Lemma core_anext_timeouts s env :
  _connect_timeout (snd (core_anext s env)) = _connect_timeout s
  /\ _keepalive_timeout (snd (core_anext s env)) = _keepalive_timeout s
  /\ _timeout (snd (core_anext s env)) =
       if is_return (fst (core_anext s env))
       then _keepalive_timeout s else _timeout s.
Proof.
  open_core s. unfold_anext.
  destruct (Qltb 0 t);
    (destruct q as [|x q]; [destruct c|]; cbn; auto;
     destruct st; cbn; auto;
     destruct env as [d ev | d o |]; cbn; auto).
  - destruct (Qltb d t); cbn; auto.
  - destruct (Chan.closed _) eqn:E; cbn; auto.
    destruct (Qltb d t); cbn; auto.
    apply (task_done_timeouts o
             (mkCore (Chan.mk [] false) (mkTask Running cbs) ct kt t)).
  - destruct (Chan.closed _) eqn:E; cbn; auto.
    apply (task_done_timeouts o
             (mkCore (Chan.mk [] false) (mkTask Running cbs) ct kt t)).
Qed.

Lemma received_log {A} (tr : list (outcome A)) r :
  received (log r tr) =
    received tr || match r with Some x => is_return x | None => false end.
Proof.
  destruct r as [x|]; cbn [log].
  - unfold received. rewrite existsb_app. cbn. now rewrite orb_false_r.
  - now rewrite orb_false_r.
Qed.

Lemma core_step_schedule ct kt s tr op :
  schedule ct kt s tr ->
  schedule ct kt (fst (core_step s op)) (log (snd (core_step s op)) tr).
Proof.
  intros (H1 & H2 & H3). unfold schedule. rewrite received_log.
  destruct op as [env | | ev | o]; cbn [core_step].
  - destruct (core_anext_timeouts s env) as (A1 & A2 & A3).
    destruct (core_anext s env) as [r s'] eqn:E. cbn [fst snd] in *.
    rewrite A1, A2, A3, H1, H2, H3.
    destruct (received tr), (is_return r); auto.
  - cbn [fst snd]. destruct (core_aclose_timeouts s) as (A1 & A2 & A3).
    rewrite A1, A2, A3, orb_false_r. auto.
  - cbn [fst snd]. destruct (task_send_timeouts ev s) as (A1 & A2 & A3).
    rewrite A1, A2, A3, orb_false_r. auto.
  - cbn [fst snd]. destruct (task_done_timeouts o s) as (A1 & A2 & A3).
    rewrite A1, A2, A3, orb_false_r. auto.
Qed.

Lemma core_run_from_schedule ct kt ops : forall s tr,
  schedule ct kt s tr ->
  schedule ct kt (fst (core_run_from ops s tr)) (snd (core_run_from ops s tr)).
Proof.
  induction ops as [|op ops IH]; intros s tr H; cbn [core_run_from]; [exact H|].
  pose proof (core_step_schedule op H) as H'.
  destruct (core_step s op) as [s' r]. now apply IH.
Qed.

Lemma core_init_schedule ct kt : schedule ct kt (core_init ct kt) [].
Proof. repeat split. Qed.

(** A run of a [SynthesizeStream] acts on the shared attributes as the run
    of its [core_ops] does. *)
Lemma synth_step_core s op :
  SynthesizeStream.core (fst (SynthesizeOps.step s op)) =
    match core_of_op op with
    | Some cop => fst (core_step (SynthesizeStream.core s) cop)
    | None => SynthesizeStream.core s
    end
  /\ snd (SynthesizeOps.step s op) =
    match core_of_op op with
    | Some cop => snd (core_step (SynthesizeStream.core s) cop)
    | None => None
    end.
Proof.
  destruct op; cbn [SynthesizeOps.step core_of_op core_step fst snd].
  - split; [|reflexivity].
    unfold SynthesizeStream.push_text, SynthesizeStream._check_input_not_ended,
      SynthesizeStream._check_not_closed, Chan.send_nowait.
    destruct (Chan.closed (SynthesizeStream._input_ch s));
      destruct (Chan.closed (_event_ch (SynthesizeStream.core s)));
      reflexivity.
  - split; [|reflexivity].
    unfold SynthesizeStream.flush, SynthesizeStream._check_input_not_ended,
      SynthesizeStream._check_not_closed, Chan.send_nowait.
    destruct (Chan.closed (SynthesizeStream._input_ch s));
      destruct (Chan.closed (_event_ch (SynthesizeStream.core s)));
      reflexivity.
  - split; [|reflexivity].
    unfold SynthesizeStream.end_input, SynthesizeStream.flush,
      SynthesizeStream._check_input_not_ended,
      SynthesizeStream._check_not_closed, Chan.send_nowait.
    destruct (Chan.closed (SynthesizeStream._input_ch s));
      destruct (Chan.closed (_event_ch (SynthesizeStream.core s)));
      reflexivity.
  - split; reflexivity.
  - unfold SynthesizeStream.__anext__.
    destruct (core_anext (SynthesizeStream.core s) env). split; reflexivity.
  - split; reflexivity.
  - split; reflexivity.
  - split; [|reflexivity].
    unfold SynthesizeStream.task_take_input.
    destruct (Chan.anext_nowait (SynthesizeStream._input_ch s))
      as [[[x| |] c]|]; reflexivity.
Qed.

Lemma synth_run_from_core ops : forall s tr,
  SynthesizeStream.core (fst (SynthesizeOps.run_from ops s tr)) =
    fst (core_run_from (core_ops ops) (SynthesizeStream.core s) tr)
  /\ snd (SynthesizeOps.run_from ops s tr) =
    snd (core_run_from (core_ops ops) (SynthesizeStream.core s) tr).
Proof.
  induction ops as [|op ops IH]; intros s tr;
    cbn [SynthesizeOps.run_from core_ops]; [auto|].
  destruct (synth_step_core s op) as [H1 H2].
  destruct (SynthesizeOps.step s op) as [s' r]. cbn [fst snd] in *.
  destruct (core_of_op op) as [cop|]; cbn [core_run_from].
  - destruct (core_step (SynthesizeStream.core s) cop) as [c' r'].
    cbn [fst snd] in *. subst. apply IH.
  - subst. cbn [log]. rewrite <- H1. apply IH.
Qed.

Lemma synth_anext_fst s env :
  fst (SynthesizeStream.__anext__ s env) =
  fst (core_anext (SynthesizeStream.core s) env).
Proof.
  unfold SynthesizeStream.__anext__.
  now destruct (core_anext (SynthesizeStream.core s) env).
Qed.

Lemma synth_anext_core s env :
  SynthesizeStream.core (snd (SynthesizeStream.__anext__ s env)) =
  snd (core_anext (SynthesizeStream.core s) env).
Proof.
  unfold SynthesizeStream.__anext__.
  now destruct (core_anext (SynthesizeStream.core s) env).
Qed.

Lemma synthesize_applies_own s :
  synthesize_applies s (_timeout (SynthesizeStream.core s)).
Proof.
  unfold synthesize_applies.
  destruct (applies_own_timeout (SynthesizeStream.core s)) as [P N].
  split; intros Ht.
  - destruct (P Ht) as (A & B & C). repeat split.
    + intros env. rewrite synth_anext_fst. apply A.
    + intros Hd. rewrite synth_anext_fst. now apply B.
    + intros Hd. rewrite synth_anext_fst. now apply B.
    + intros W. rewrite synth_anext_fst. now apply C.
  - destruct (N Ht) as (A & B & C). repeat split.
    + intros env msg. rewrite synth_anext_fst. apply A.
    + intros W d ev. rewrite synth_anext_fst. now apply B.
    + intros W. rewrite synth_anext_fst. now apply C.
Qed.

(** ** C1 *)

(** C1.  On a [ChunkedStream] and on a [SynthesizeStream], however the
    consumer's calls and the steps of the background task interleave,
    [__anext__] waits under [connect_timeout] as long as no call has returned
    an event (in particular at the first call) and under [keepalive_timeout]
    once a call has returned one; a value that is not positive means no
    limit: the call never raises a timeout and, with nothing arriving, does
    not come back. *)
Theorem timeout_schedule :
  forall ct kt : Q,
    (forall ops,
        let r := core_run ops (ChunkedStream.__init__ ct kt) in
        chunked_applies (fst r) (if received (snd r) then kt else ct))
    /\ (forall cls ops,
        let r := SynthesizeOps.run ops (SynthesizeStream.__init__ cls ct kt) in
        synthesize_applies (fst r) (if received (snd r) then kt else ct)).
Proof.
  intros ct kt. split.
  - intros ops r.
    destruct (core_run_from_schedule ops (core_init_schedule ct kt))
      as (_ & _ & Ht).
    subst r. unfold core_run, ChunkedStream.__init__. rewrite <- Ht.
    apply applies_own_timeout.
  - intros cls ops r. subst r. unfold SynthesizeOps.run.
    destruct (synth_run_from_core ops (SynthesizeStream.__init__ cls ct kt) [])
      as [Hc Htr].
    destruct (core_run_from_schedule (core_ops ops) (core_init_schedule ct kt))
      as (_ & _ & Ht).
    cbn [SynthesizeStream.__init__ SynthesizeStream.core] in Hc, Htr.
    rewrite Htr, <- Ht, <- Hc.
    apply synthesize_applies_own.
Qed.

(** ** Termination of the background task *)

Lemma fold_callbacks_close cbs : forall s,
  fold_left run_callback cbs s =
    match cbs with
    | [] => s
    | _ :: _ => set_event_ch s (Chan.close (_event_ch s))
    end.
Proof.
  induction cbs as [|cb cbs IH]; intros s; cbn [fold_left]; [reflexivity|].
  rewrite IH. destruct cb. destruct cbs; reflexivity.
Qed.

(** A running task with the callback registered: termination marks the task
    done and closes the event channel, and touches nothing else. *)
Lemma task_done_running o s :
  status (_task s) = Running -> In CloseEventCh (done_callbacks (_task s)) ->
  task_done o s =
    mkCore (Chan.mk (Chan.queue (_event_ch s)) true)
           (mkTask (Done o) (done_callbacks (_task s)))
           (_connect_timeout s) (_keepalive_timeout s) (_timeout s).
Proof.
  intros Hs Hin. unfold task_done. rewrite Hs, fold_callbacks_close.
  destruct (done_callbacks (_task s)) as [|cb cbs] eqn:E; [destruct Hin|].
  reflexivity.
Qed.

Lemma task_done_finished o s o' :
  status (_task s) = Done o' -> task_done o s = s.
Proof. intros Hs. unfold task_done. now rewrite Hs. Qed.

Lemma core_init_inv ct kt : core_inv (core_init ct kt).
Proof.
  split; cbn.
  - now left.
  - intros o H. discriminate H.
Qed.

Lemma task_done_inv o s : core_inv s -> core_inv (task_done o s).
Proof.
  intros H. destruct (status (_task s)) as [|o'] eqn:Hs.
  - destruct H as [Hin _].
    rewrite task_done_running by assumption. split; cbn; auto.
  - now rewrite (task_done_finished o s Hs).
Qed.

Lemma task_send_inv ev s : core_inv s -> core_inv (task_send ev s).
Proof.
  intros H. unfold task_send, Chan.send_nowait.
  destruct (status (_task s)) as [|o'] eqn:Hs; [|exact H].
  destruct (Chan.closed (_event_ch s)); [exact H|].
  destruct H as [Hin _].
  split; cbn; [assumption|]. intros o H. congruence.
Qed.

Lemma core_aclose_inv s : core_inv s -> core_inv (core_aclose s).
Proof.
  intros H. apply (task_done_inv Cancelled) in H. destruct H as [Hin Hd].
  unfold core_aclose, gracefully_cancel. split; cbn; auto.
Qed.

Lemma core_anext_inv s env : core_inv s -> core_inv (snd (core_anext s env)).
Proof.
  intros [Hin Hd]. open_core s. unfold_anext.
  destruct (Qltb 0 t);
    (destruct q as [|x q]; [destruct c|];
       cbn -[task_done]; [now split| |now split];
     destruct st as [|o']; cbn -[task_done]; [|now split];
     destruct env as [d ev | d o |]; cbn -[task_done]; try now split).
  - destruct (Qltb d t); cbn; now split.
  - rewrite (@task_done_running o
               (mkCore (Chan.mk [] false) (mkTask Running cbs) ct kt t))
      by (cbn; auto).
    cbn. destruct (Qltb d t); cbn; now split.
  - rewrite (@task_done_running o
               (mkCore (Chan.mk [] false) (mkTask Running cbs) ct kt t))
      by (cbn; auto).
    cbn. now split.
Qed.

Lemma core_step_inv s op : core_inv s -> core_inv (fst (core_step s op)).
Proof.
  intros H. destruct op as [env | | ev | o]; cbn [core_step].
  - pose proof (core_anext_inv env H) as H'.
    now destruct (core_anext s env).
  - now apply core_aclose_inv.
  - now apply task_send_inv.
  - now apply task_done_inv.
Qed.

Lemma core_run_from_inv ops : forall s tr,
  core_inv s -> core_inv (fst (core_run_from ops s tr)).
Proof.
  induction ops as [|op ops IH]; intros s tr H; cbn [core_run_from]; [exact H|].
  pose proof (core_step_inv op H) as H'.
  destruct (core_step s op) as [s' r]. now apply IH.
Qed.

Lemma chunked_reachable_inv ct kt ops :
  core_inv (fst (core_run ops (ChunkedStream.__init__ ct kt))).
Proof. apply core_run_from_inv, core_init_inv. Qed.

Lemma synthesize_reachable_inv cls ct kt ops :
  core_inv (SynthesizeStream.core
              (fst (SynthesizeOps.run ops (SynthesizeStream.__init__ cls ct kt)))).
Proof.
  unfold SynthesizeOps.run.
  destruct (synth_run_from_core ops (SynthesizeStream.__init__ cls ct kt) [])
    as [Hc _].
  rewrite Hc. apply core_run_from_inv, core_init_inv.
Qed.

(** An open event channel of such a stream means the task is running. *)
Lemma core_inv_open_running s :
  core_inv s -> Chan.closed (_event_ch s) = false -> status (_task s) = Running.
Proof.
  intros [_ Hd] Hc. destruct (status (_task s)) as [|o] eqn:Hs; [reflexivity|].
  rewrite (Hd o eq_refl) in Hc. discriminate Hc.
Qed.

Lemma set_core_same s : SynthesizeStream.set_core s (SynthesizeStream.core s) = s.
Proof. now destruct s. Qed.

Lemma synth_anext_inv s env r s' :
  SynthesizeStream.__anext__ s env = (r, s') ->
  core_anext (SynthesizeStream.core s) env = (r, SynthesizeStream.core s')
  /\ s' = SynthesizeStream.set_core s (SynthesizeStream.core s').
Proof.
  unfold SynthesizeStream.__anext__.
  destruct (core_anext (SynthesizeStream.core s) env) as [r0 c].
  intros H. inversion H. subst. now destruct s.
Qed.

(** ** C10 *)

Lemma core_timeout_retry s env msg s' :
  core_inv s ->
  core_anext s env = (Raise (TimeoutError msg), s') ->
  s' = s /\ waiting s /\ 0 < _timeout s.
Proof.
  intros Hinv H.
  destruct (core_anext_timeout_inv _ _ H) as (_ & E & Ht & Hq & Hc).
  repeat split; auto. now apply core_inv_open_running.
Qed.

(** C10.  A call of [__anext__] that raises a timeout leaves the stream,
    and with it the [_timeout] attribute, as it was: the deadline is still
    [connect_timeout] when no event has been returned yet, and a further call
    then returns an event that arrives within that deadline and times out
    again on one that does not, whatever [keepalive_timeout] is. *)
Theorem timeout_keeps_deadline :
  forall ct kt : Q,
    (forall ops env msg s',
        let r := core_run ops (ChunkedStream.__init__ ct kt) in
        ChunkedStream.__anext__ (fst r) env = (Raise (TimeoutError msg), s') ->
        s' = fst r
        /\ _timeout s' = (if received (snd r) then kt else ct)
        /\ (forall d ev, d < _timeout s' ->
              fst (ChunkedStream.__anext__ s' (Sends d ev)) = Return ev)
        /\ (forall d ev, _timeout s' <= d ->
              fst (ChunkedStream.__anext__ s' (Sends d ev)) = Raise timed_out))
    /\ (forall cls ops env msg s',
        let r := SynthesizeOps.run ops (SynthesizeStream.__init__ cls ct kt) in
        SynthesizeStream.__anext__ (fst r) env = (Raise (TimeoutError msg), s') ->
        s' = fst r
        /\ _timeout (SynthesizeStream.core s') =
             (if received (snd r) then kt else ct)
        /\ (forall d ev, d < _timeout (SynthesizeStream.core s') ->
              fst (SynthesizeStream.__anext__ s' (Sends d ev)) = Return ev)
        /\ (forall d ev, _timeout (SynthesizeStream.core s') <= d ->
              fst (SynthesizeStream.__anext__ s' (Sends d ev)) = Raise timed_out)).
Proof.
  intros ct kt. split.
  - intros ops env msg s' r H. subst r.
    pose proof (chunked_reachable_inv ct kt ops) as Hinv.
    destruct (core_run_from_schedule ops (core_init_schedule ct kt))
      as (_ & _ & Ht).
    unfold ChunkedStream.__anext__, ChunkedStream.__init__, core_run in *.
    destruct (core_timeout_retry _ Hinv H) as (E & W & Hpos). subst s'.
    repeat split; auto.
    + intros d ev Hd. now rewrite core_anext_in_time.
    + intros d ev Hd. now rewrite core_anext_late.
  - intros cls ops env msg s' r H. subst r.
    pose proof (synthesize_reachable_inv cls ct kt ops) as Hinv.
    destruct (synth_run_from_core ops (SynthesizeStream.__init__ cls ct kt) [])
      as [Hc Htr].
    destruct (core_run_from_schedule (core_ops ops) (core_init_schedule ct kt))
      as (_ & _ & Ht).
    cbn [SynthesizeStream.__init__ SynthesizeStream.core] in Hc, Htr.
    unfold SynthesizeOps.run in *. rewrite Htr, <- Ht, <- Hc. clear Ht Hc Htr.
    destruct (synth_anext_inv _ _ H) as [Hcore Hs'].
    destruct (core_timeout_retry _ Hinv Hcore) as (E & W & Hpos).
    rewrite E in Hs'. rewrite set_core_same in Hs'. subst s'.
    repeat split; auto.
    + intros d ev Hd. rewrite synth_anext_fst. now rewrite core_anext_in_time.
    + intros d ev Hd. rewrite synth_anext_fst. now rewrite core_anext_late.
Qed.

(** The first call of a stream with a connect timeout of one second and a
    keepalive timeout of five times out on an event that takes two seconds;
    the retry is held to one second again. *)
Lemma timeout_keeps_deadline_witness :
  (let s0 := ChunkedStream.__init__ 1 5 in
   _timeout s0 = 1%Q
   /\ fst (ChunkedStream.__anext__ s0 (Sends (1#2) event1)) = Return event1
   /\ fst (ChunkedStream.__anext__ s0 (Sends 3 event1)) = Raise timed_out)
  /\ (let s0 := SynthesizeStream.__init__ "tts.Stream" 1 5 in
      _timeout (SynthesizeStream.core s0) = 1%Q
      /\ fst (SynthesizeStream.__anext__ s0 (Sends (1#2) event1)) = Return event1
      /\ fst (SynthesizeStream.__anext__ s0 (Sends 3 event1)) = Raise timed_out).
Proof.
  destruct (timeout_keeps_deadline 1 5) as [HC HS]. split.
  - destruct (HC [] (Sends 2 event1) "synthesis timed out"
                (ChunkedStream.__init__ 1 5) eq_refl) as (_ & Ht & Hin & Hlate).
    cbn zeta. split; [exact Ht|]. split.
    + apply Hin. rewrite Ht. reflexivity.
    + apply Hlate. rewrite Ht. discriminate.
  - destruct (HS "tts.Stream" [] (Sends 2 event1) "synthesis timed out"
                (SynthesizeStream.__init__ "tts.Stream" 1 5) eq_refl)
      as (_ & Ht & Hin & Hlate).
    cbn zeta. split; [exact Ht|]. split.
    + apply Hin. rewrite Ht. reflexivity.
    + apply Hlate. rewrite Ht. discriminate.
Defined.

(** ** C2 *)

(** The statement of C2 fails: after a timeout the stream is not at its end.
    With both timeouts at one second, the first call times out on an event
    that takes two seconds, and the next call returns an event that arrives
    after half a second instead of signalling the end of the stream. *)
Lemma timeout_does_not_end_stream :
  let s0 := ChunkedStream.__init__ 1 1 in
  let r1 := ChunkedStream.__anext__ s0 (Sends 2 event1) in
  let r2 := ChunkedStream.__anext__ (snd r1) (Sends (1#2) event1) in
  fst r1 = Raise (TimeoutError "synthesis timed out")
  /\ Chan.closed (_event_ch (snd r1)) = false
  /\ fst r2 = Return event1
  /\ fst r2 <> Raise StopAsyncIteration.
Proof.
  cbv zeta. repeat split; try reflexivity. vm_compute. discriminate.
Qed.

(** C2, amended.  When the consumer has to suspend under a positive deadline
    and nothing arrives within it, [__anext__] raises the timeout error with
    the message "synthesis timed out" and leaves the stream as it was: the
    event channel is still open, the task still running, and a further call
    returns the event that arrives within the deadline; no arrival makes the
    call signal the end of the stream. *)
Theorem timeout_raises_and_keeps_stream :
  forall (s : StreamCore) (env : Arrival),
    waiting s -> 0 < _timeout s -> late (_timeout s) env ->
    (ChunkedStream.__anext__ s env =
       (Raise (TimeoutError "synthesis timed out"), s)
     /\ Chan.closed (_event_ch s) = false
     /\ status (_task s) = Running
     /\ (forall d ev, d < _timeout s ->
           fst (ChunkedStream.__anext__ s (Sends d ev)) = Return ev)
     /\ (forall d ev,
           fst (ChunkedStream.__anext__ s (Sends d ev))
             <> Raise StopAsyncIteration))
    /\ (forall cls input standby,
          let st := SynthesizeStream.mk cls input s standby in
          SynthesizeStream.__anext__ st env =
            (Raise (TimeoutError "synthesis timed out"), st)
          /\ (forall d ev, d < _timeout s ->
                fst (SynthesizeStream.__anext__ st (Sends d ev)) = Return ev)
          /\ (forall d ev,
                fst (SynthesizeStream.__anext__ st (Sends d ev))
                  <> Raise StopAsyncIteration)).
Proof.
  intros s env W Ht Hl.
  assert (Hno : forall d ev,
             fst (core_anext s (Sends d ev)) <> Raise StopAsyncIteration).
  { intros d ev. destruct (Qlt_le_dec d (_timeout s)) as [Hd|Hd].
    - rewrite core_anext_in_time by assumption. discriminate.
    - rewrite core_anext_late by assumption. discriminate. }
  split.
  - unfold ChunkedStream.__anext__. repeat split.
    + now apply core_anext_late.
    + apply W.
    + apply W.
    + intros d ev Hd. now rewrite core_anext_in_time.
    + exact Hno.
  - intros cls input standby st. subst st. repeat split.
    + unfold SynthesizeStream.__anext__. cbn [SynthesizeStream.core].
      now rewrite core_anext_late.
    + intros d ev Hd. rewrite synth_anext_fst. cbn [SynthesizeStream.core].
      now rewrite core_anext_in_time.
    + intros d ev. rewrite synth_anext_fst. apply Hno.
Qed.

Lemma timeout_raises_and_keeps_stream_witness :
  let s0 := ChunkedStream.__init__ 1 1 in
  ChunkedStream.__anext__ s0 (Sends 2 event1) =
    (Raise (TimeoutError "synthesis timed out"), s0)
  /\ fst (ChunkedStream.__anext__ s0 (Sends (1#2) event1)) = Return event1.
Proof.
  cbv zeta.
  assert (W : waiting (ChunkedStream.__init__ 1 1)) by (repeat split).
  assert (Ht : 0 < _timeout (ChunkedStream.__init__ 1 1)) by reflexivity.
  assert (Hl : late (_timeout (ChunkedStream.__init__ 1 1)) (Sends 2 event1))
    by (cbn; discriminate).
  destruct (timeout_raises_and_keeps_stream (Sends 2 event1) W Ht Hl)
    as [(H1 & _ & _ & H2 & _) _].
  split; [exact H1|]. apply H2. reflexivity.
Defined.

(** ** The input side of a [SynthesizeStream] *)

Module SynthesizeFacts.
Import SynthesizeStream SynthesizeOps.

Ltac unfold_input :=
  unfold end_input, push_text, flush, _check_input_not_ended,
    _check_not_closed, Chan.send_nowait, bind.

Lemma push_text_ended s token :
  Chan.closed (_input_ch s) = true ->
  push_text s token = Raise (InputEnded s).
Proof. intros H. unfold_input. now rewrite H. Qed.

Lemma flush_ended s :
  Chan.closed (_input_ch s) = true -> flush s = Raise (InputEnded s).
Proof. intros H. unfold_input. now rewrite H. Qed.

Lemma push_text_closed s token :
  Chan.closed (_input_ch s) = false ->
  Chan.closed (_event_ch (core s)) = true ->
  push_text s token = Raise (StreamClosed s).
Proof. intros H1 H2. unfold_input. now rewrite H1, H2. Qed.

Lemma flush_closed s :
  Chan.closed (_input_ch s) = false ->
  Chan.closed (_event_ch (core s)) = true ->
  flush s = Raise (StreamClosed s).
Proof. intros H1 H2. unfold_input. now rewrite H1, H2. Qed.

(** [flush] succeeds exactly on a stream with both channels open, and then
    appends the marker. *)
Lemma flush_returns s s1 :
  flush s = Return s1 ->
  Chan.closed (_input_ch s) = false
  /\ Chan.closed (_event_ch (core s)) = false
  /\ s1 = set_input_ch s
            (Chan.mk (Chan.queue (_input_ch s) ++ [_FlushSentinel]) false).
Proof.
  unfold_input.
  destruct (Chan.closed (_input_ch s)) eqn:E1; [discriminate|].
  destruct (Chan.closed (_event_ch (core s))) eqn:E2; [discriminate|].
  intros H. inversion H. auto.
Qed.

Lemma end_input_returns s s2 :
  end_input s = Return s2 ->
  Chan.closed (_input_ch s) = false
  /\ Chan.closed (_event_ch (core s)) = false
  /\ s2 = set_input_ch s
            (Chan.mk (Chan.queue (_input_ch s) ++ [_FlushSentinel]) true).
Proof.
  unfold end_input. destruct (flush s) as [s1| |] eqn:F; try discriminate.
  destruct (flush_returns s F) as (H1 & H2 & ->). cbn. intros H.
  inversion H. auto.
Qed.

(** No operation reopens the input channel or renames the class. *)
Lemma step_keeps_input_closed s op :
  cls (fst (step s op)) = cls s
  /\ (Chan.closed (_input_ch s) = true ->
      Chan.closed (_input_ch (fst (step s op))) = true).
Proof.
  destruct op; cbn [step fst].
  - unfold_input. destruct (Chan.closed (_input_ch s)) eqn:E1; cbn; auto.
    destruct (Chan.closed (_event_ch (core s))); cbn; auto.
    split; [reflexivity|discriminate].
  - unfold_input. destruct (Chan.closed (_input_ch s)) eqn:E1; cbn; auto.
    destruct (Chan.closed (_event_ch (core s))); cbn; auto.
    split; [reflexivity|discriminate].
  - unfold_input. destruct (Chan.closed (_input_ch s)) eqn:E1; cbn; auto.
    destruct (Chan.closed (_event_ch (core s))); cbn; auto.
    split; [reflexivity|discriminate].
  - cbn. auto.
  - unfold __anext__. destruct (core_anext (core s) env). cbn. auto.
  - cbn. auto.
  - cbn. auto.
  - unfold task_take_input, Chan.anext_nowait.
    destruct (Chan.queue (_input_ch s)) as [|x q]; cbn.
    + destruct (Chan.closed (_input_ch s)) eqn:E; cbn; auto.
      split; [reflexivity|discriminate].
    + auto.
Qed.

Lemma run_from_keeps_input_closed ops : forall s tr,
  cls (fst (run_from ops s tr)) = cls s
  /\ (Chan.closed (_input_ch s) = true ->
      Chan.closed (_input_ch (fst (run_from ops s tr))) = true).
Proof.
  induction ops as [|op ops IH]; intros s tr; cbn [run_from]; [auto|].
  destruct (step_keeps_input_closed s op) as [Hc Hi].
  destruct (step s op) as [s' r]. cbn [fst] in *.
  destruct (IH s' (log r tr)) as [Hc' Hi'].
  split; [congruence|auto].
Qed.

(** Once the input channel is closed, [push_text] and [flush] raise
    [InputEnded] for ever. *)
Lemma input_ended_for_ever s ops token :
  Chan.closed (_input_ch s) = true ->
  push_text (fst (run ops s)) token = Raise (InputEnded s)
  /\ flush (fst (run ops s)) = Raise (InputEnded s).
Proof.
  intros H. destruct (run_from_keeps_input_closed ops s []) as [Hc Hi].
  unfold run. split.
  - rewrite push_text_ended by auto. unfold InputEnded. now rewrite Hc.
  - rewrite flush_ended by auto. unfold InputEnded. now rewrite Hc.
Qed.

Lemma take_inputs_firstn n : forall s,
  fst (take_inputs n s) = firstn n (Chan.queue (_input_ch s)).
Proof.
  induction n as [|n IH]; intros s; cbn [take_inputs firstn]; [reflexivity|].
  unfold task_take_input, Chan.anext_nowait.
  destruct (Chan.queue (_input_ch s)) as [|x q] eqn:E.
  - destruct (Chan.closed (_input_ch s)); reflexivity.
  - specialize (IH (set_input_ch s (Chan.mk q (Chan.closed (_input_ch s))))).
    destruct (take_inputs n _) as [xs s'']. cbn in *. now rewrite IH.
Qed.

End SynthesizeFacts.

(** ** C3 *)

Lemma append_cancel_l (p a b : string) :
  (p ++ a)%string = (p ++ b)%string -> a = b.
Proof.
  induction p as [|c p IH]; cbn; intros H; [exact H|].
  inversion H. auto.
Qed.

Lemma input_ended_not_closed s :
  SynthesizeStream.InputEnded s <> SynthesizeStream.StreamClosed s.
Proof.
  unfold SynthesizeStream.InputEnded, SynthesizeStream.StreamClosed.
  intros H. inversion H as [H']. apply append_cancel_l in H'. discriminate H'.
Qed.

(** The statement of C3 fails in its second half: on a closed stream
    [push_text] and [flush] raise the "input ended" error, not the
    "is closed" one, because [aclose] closes the input channel first and the
    input check of lines 135 and 141 comes first. *)
Lemma closed_stream_raises_input_ended :
  let s := SynthesizeStream.aclose (SynthesizeStream.__init__ "tts.Stream" 0 0) in
  SynthesizeStream.push_text s "hi" = Raise (RuntimeError "tts.Stream input ended")
  /\ SynthesizeStream.push_text s "hi" <> Raise (SynthesizeStream.StreamClosed s)
  /\ SynthesizeStream.flush s = Raise (RuntimeError "tts.Stream input ended")
  /\ SynthesizeStream.flush s <> Raise (SynthesizeStream.StreamClosed s).
Proof.
  cbv zeta. repeat split; try reflexivity; vm_compute; discriminate.
Qed.

(** C3, amended.  After an [end_input] that returned, and likewise after
    [aclose], every later [push_text] and [flush] raises [InputEnded],
    whatever happens in between.  [StreamClosed], a different error, is what
    both raise while the input channel is open and the event channel is
    closed, that is once the background task has ended by itself. *)
Theorem input_rejected_after_end_and_close :
  forall (s : SynthesizeStream.t) (ops : list SynthesizeOps.Op) (token : string),
    (forall s1, SynthesizeStream.end_input s = Return s1 ->
       SynthesizeStream.push_text (fst (SynthesizeOps.run ops s1)) token
         = Raise (SynthesizeStream.InputEnded s)
       /\ SynthesizeStream.flush (fst (SynthesizeOps.run ops s1))
         = Raise (SynthesizeStream.InputEnded s))
    /\ (SynthesizeStream.push_text
          (fst (SynthesizeOps.run ops (SynthesizeStream.aclose s))) token
          = Raise (SynthesizeStream.InputEnded s)
        /\ SynthesizeStream.flush
             (fst (SynthesizeOps.run ops (SynthesizeStream.aclose s)))
          = Raise (SynthesizeStream.InputEnded s))
    /\ (Chan.closed (SynthesizeStream._input_ch s) = false ->
        Chan.closed (_event_ch (SynthesizeStream.core s)) = true ->
        SynthesizeStream.push_text s token
          = Raise (SynthesizeStream.StreamClosed s)
        /\ SynthesizeStream.flush s = Raise (SynthesizeStream.StreamClosed s))
    /\ SynthesizeStream.InputEnded s <> SynthesizeStream.StreamClosed s.
Proof.
  intros s ops token. split; [|split; [|split]].
  - intros s1 H.
    destruct (SynthesizeFacts.end_input_returns s H) as (_ & _ & ->).
    apply (SynthesizeFacts.input_ended_for_ever
             (SynthesizeStream.set_input_ch s
                (Chan.mk (Chan.queue (SynthesizeStream._input_ch s)
                          ++ [SynthesizeStream._FlushSentinel]) true))).
    reflexivity.
  - apply (SynthesizeFacts.input_ended_for_ever (SynthesizeStream.aclose s)).
    reflexivity.
  - intros H1 H2. split.
    + now apply SynthesizeFacts.push_text_closed.
    + now apply SynthesizeFacts.flush_closed.
  - apply input_ended_not_closed.
Qed.

(** A fresh stream: input ended after [end_input], also after more calls,
    and the "is closed" error once the task has failed by itself. *)
Lemma input_rejected_after_end_and_close_witness :
  let s := SynthesizeStream.__init__ "tts.Stream" 0 0 in
  let s1 := SynthesizeStream.set_input_ch s
              (Chan.mk [SynthesizeStream._FlushSentinel] true) in
  let s2 := SynthesizeStream.set_core s
              (task_done Failed (SynthesizeStream.core s)) in
  SynthesizeStream.push_text
      (fst (SynthesizeOps.run [SynthesizeOps.TaskTakeInput] s1)) "hi"
    = Raise (SynthesizeStream.InputEnded s)
  /\ SynthesizeStream.push_text s2 "hi" = Raise (SynthesizeStream.StreamClosed s2).
Proof.
  cbv zeta. split.
  - destruct (input_rejected_after_end_and_close
                (SynthesizeStream.__init__ "tts.Stream" 0 0)
                [SynthesizeOps.TaskTakeInput] "hi") as (H & _).
    exact (proj1 (H _ eq_refl)).
  - destruct (input_rejected_after_end_and_close
                (SynthesizeStream.set_core
                   (SynthesizeStream.__init__ "tts.Stream" 0 0)
                   (task_done Failed
                      (SynthesizeStream.core
                         (SynthesizeStream.__init__ "tts.Stream" 0 0))))
                [] "hi") as (_ & _ & H & _).
    exact (proj1 (H eq_refl eq_refl)).
Defined.

(** ** C4 *)

(** C4.  Where [flush] returns, [end_input] returns what [flush] followed
    by closing the input channel gives: one flush marker is appended behind
    the input already buffered, the event side is untouched, every later
    [push_text] and [flush] raises [InputEnded], and the background task
    still takes the buffered input, marker last, from the closed channel. *)
Theorem end_input_is_flush_then_close :
  forall s s1 : SynthesizeStream.t,
    SynthesizeStream.flush s = Return s1 ->
    let s2 := SynthesizeStream.set_input_ch s1
                (Chan.close (SynthesizeStream._input_ch s1)) in
    SynthesizeStream.end_input s = Return s2
    /\ Chan.queue (SynthesizeStream._input_ch s2) =
         Chan.queue (SynthesizeStream._input_ch s)
           ++ [SynthesizeStream._FlushSentinel]
    /\ Chan.closed (SynthesizeStream._input_ch s2) = true
    /\ SynthesizeStream.core s2 = SynthesizeStream.core s
    /\ (forall ops token,
          SynthesizeStream.push_text (fst (SynthesizeOps.run ops s2)) token
            = Raise (SynthesizeStream.InputEnded s)
          /\ SynthesizeStream.flush (fst (SynthesizeOps.run ops s2))
            = Raise (SynthesizeStream.InputEnded s))
    /\ fst (SynthesizeOps.take_inputs
              (S (List.length (Chan.queue (SynthesizeStream._input_ch s)))) s2)
       = Chan.queue (SynthesizeStream._input_ch s)
           ++ [SynthesizeStream._FlushSentinel].
Proof.
  intros s s1 F s2.
  destruct (SynthesizeFacts.flush_returns s F) as (H1 & H2 & E).
  assert (Hq : Chan.queue (SynthesizeStream._input_ch s2) =
               Chan.queue (SynthesizeStream._input_ch s)
                 ++ [SynthesizeStream._FlushSentinel])
    by (subst s2 s1; reflexivity).
  split; [|split; [|split; [|split; [|split]]]].
  - unfold SynthesizeStream.end_input. now rewrite F.
  - exact Hq.
  - reflexivity.
  - subst s2 s1. reflexivity.
  - intros ops token.
    replace (SynthesizeStream.InputEnded s) with (SynthesizeStream.InputEnded s2)
      by (subst s2 s1; reflexivity).
    now apply SynthesizeFacts.input_ended_for_ever.
  - rewrite SynthesizeFacts.take_inputs_firstn, Hq.
    apply firstn_all2. rewrite length_app. cbn. lia.
Qed.

(** A stream with one token buffered. *)
Lemma end_input_is_flush_then_close_witness :
  let s := SynthesizeStream.set_input_ch
             (SynthesizeStream.__init__ "tts.Stream" 0 0)
             (Chan.mk [SynthesizeStream.Token "hello"] false) in
  let s2 := SynthesizeStream.set_input_ch s
              (Chan.mk [SynthesizeStream.Token "hello";
                        SynthesizeStream._FlushSentinel] true) in
  SynthesizeStream.end_input s = Return s2
  /\ fst (SynthesizeOps.take_inputs 2 s2) =
       [SynthesizeStream.Token "hello"; SynthesizeStream._FlushSentinel].
Proof.
  cbv zeta.
  destruct (@end_input_is_flush_then_close
              (SynthesizeStream.set_input_ch
                 (SynthesizeStream.__init__ "tts.Stream" 0 0)
                 (Chan.mk [SynthesizeStream.Token "hello"] false))
              _ eq_refl) as (H1 & _ & _ & _ & _ & H2).
  split; [exact H1 | exact H2].
Defined.

(** ** C5 *)

(** A closed event channel hands out what it holds and then ends the
    iteration. *)
Lemma core_iterate_closed q : forall s envs,
  Chan.queue (_event_ch s) = q -> Chan.closed (_event_ch s) = true ->
  List.length envs = S (List.length q) ->
  fst (core_iterate envs s) = map (@Return _) q ++ [Raise StopAsyncIteration].
Proof.
  induction q as [|ev q IH]; intros s envs Hq Hc Hl;
    destruct envs as [|env envs]; try discriminate Hl; cbn [core_iterate].
  - rewrite core_anext_exhausted by assumption.
    destruct envs; [reflexivity|discriminate Hl].
  - rewrite (core_anext_buffered s env Hq).
    specialize (IH (mkCore (Chan.mk q (Chan.closed (_event_ch s))) (_task s)
                      (_connect_timeout s) (_keepalive_timeout s)
                      (_keepalive_timeout s)) envs eq_refl Hc).
    destruct (core_iterate envs _) as [rs s''].
    cbn [fst map app] in *. rewrite IH; [reflexivity|].
    cbn in Hl. now inversion Hl.
Qed.

Lemma synthesize_iterate_core envs : forall s,
  fst (synthesize_iterate envs s) =
  fst (core_iterate envs (SynthesizeStream.core s)).
Proof.
  induction envs as [|env envs IH]; intros s;
    cbn [synthesize_iterate core_iterate]; [reflexivity|].
  unfold SynthesizeStream.__anext__.
  destruct (core_anext (SynthesizeStream.core s) env) as [r c].
  specialize (IH (SynthesizeStream.set_core s c)).
  destruct (synthesize_iterate envs _) as [rs s''].
  cbn [SynthesizeStream.set_core SynthesizeStream.core] in IH.
  destruct (core_iterate envs c) as [rs' c'']. cbn [fst] in *. now rewrite IH.
Qed.

Lemma task_done_closes o s :
  core_inv s -> Chan.closed (_event_ch (task_done o s)) = true.
Proof.
  intros H. destruct (status (_task s)) as [|o'] eqn:Hs.
  - destruct H as [Hin _]. now rewrite task_done_running.
  - rewrite (task_done_finished o s Hs). destruct H as [_ Hd]. now apply (Hd o').
Qed.

(** C5.  On a [ChunkedStream] and on a [SynthesizeStream], whatever has
    happened before, once the background task has ended, with success, with
    a failure or cancelled, the event channel is closed; a consumer that
    goes on calling [__anext__] gets the events still buffered, in order, and
    then the end of the stream. *)
Theorem task_end_closes_event_channel :
  forall (ct kt : Q) (o : TaskOutcome),
    (forall ops,
        let s := task_done o (fst (core_run ops (ChunkedStream.__init__ ct kt))) in
        Chan.closed (_event_ch s) = true
        /\ forall envs,
             List.length envs = S (List.length (Chan.queue (_event_ch s))) ->
             fst (core_iterate envs s) =
               map (@Return _) (Chan.queue (_event_ch s))
                 ++ [Raise StopAsyncIteration])
    /\ (forall cls ops,
        let s0 := fst (SynthesizeOps.run ops (SynthesizeStream.__init__ cls ct kt)) in
        let s := SynthesizeStream.set_core s0
                   (task_done o (SynthesizeStream.core s0)) in
        Chan.closed (_event_ch (SynthesizeStream.core s)) = true
        /\ forall envs,
             List.length envs =
               S (List.length (Chan.queue (_event_ch (SynthesizeStream.core s)))) ->
             fst (synthesize_iterate envs s) =
               map (@Return _) (Chan.queue (_event_ch (SynthesizeStream.core s)))
                 ++ [Raise StopAsyncIteration]).
Proof.
  intros ct kt o. split.
  - intros ops s.
    assert (Hc : Chan.closed (_event_ch s) = true)
      by apply task_done_closes, chunked_reachable_inv.
    split; [exact Hc|]. intros envs Hl.
    now apply core_iterate_closed.
  - intros cls ops s0 s.
    assert (Hc : Chan.closed (_event_ch (SynthesizeStream.core s)) = true)
      by apply task_done_closes, synthesize_reachable_inv.
    split; [exact Hc|]. intros envs Hl.
    rewrite synthesize_iterate_core. now apply core_iterate_closed.
Qed.

(** Two events buffered, then the task fails: both events, then the end. *)
Lemma task_end_closes_event_channel_witness :
  let s := task_done Failed
             (fst (core_run [CTaskSend event1; CTaskSend event2]
                     (ChunkedStream.__init__ 0 0))) in
  fst (core_iterate [Silent; Silent; Silent] s) =
    [Return event1; Return event2; Raise StopAsyncIteration].
Proof.
  cbv zeta.
  destruct (task_end_closes_event_channel 0 0 Failed) as [H _].
  destruct (H [CTaskSend event1; CTaskSend event2]) as [_ H'].
  exact (H' [Silent; Silent; Silent] eq_refl).
Defined.

(** ** C6 *)

(** C6.  On a provider whose capabilities declare no streaming, [stream]
    raises [NotImplementedError] at the call: it is a plain method, so it
    cannot stay suspended, it returns no stream, and it leaves the provider
    as it was. *)
Theorem stream_unsupported :
  forall self : TTS.t,
    streaming (TTS.capabilities self) = false ->
    (exists msg, fst (TTS.stream self) = Raise (NotImplementedError msg))
    /\ (forall st, fst (TTS.stream self) <> Return st)
    /\ fst (TTS.stream self) <> Blocked
    /\ snd (TTS.stream self) = self.
Proof.
  intros self _. cbn. repeat split.
  - eexists. reflexivity.
  - intros st H. discriminate H.
  - discriminate.
Qed.

Lemma stream_unsupported_witness :
  exists msg,
    fst (TTS.stream (TTS.__init__ (mkTTSCapabilities false) 24000 1 0 0)) =
    Raise (NotImplementedError msg).
Proof.
  exact (proj1 (stream_unsupported
                  (TTS.__init__ (mkTTSCapabilities false) 24000 1 0 0) eq_refl)).
Defined.

(** ** C8 *)

Lemma world_step_provider impl w op :
  provider (world_step impl w op) = provider w.
Proof. destruct op; reflexivity. Qed.

Lemma world_run_provider impl ops : forall w,
  provider (world_run impl ops w) = provider w.
Proof.
  unfold world_run.
  induction ops as [|op ops IH]; intros w; cbn [fold_left]; [reflexivity|].
  rewrite IH. apply world_step_provider.
Qed.

(** C8.  Whatever is called on a provider and on its streams, in any order
    and however the provider implements [synthesize], the accessors
    [capabilities], [sample_rate] and [num_channels] return the values given
    to the constructor. *)
Theorem provider_configuration_fixed :
  forall (impl : TTS.t -> string -> ChunkedStream.t)
         (caps : TTSCapabilities) (sr nc : Z) (ct kt : Q)
         (cs : list ChunkedStream.t) (ss : list SynthesizeStream.t)
         (ops : list WorldOp),
    let w := world_run impl ops
               (mkWorld (TTS.__init__ caps sr nc ct kt) cs ss) in
    TTS.capabilities (provider w) = caps
    /\ TTS.sample_rate (provider w) = sr
    /\ TTS.num_channels (provider w) = nc.
Proof.
  intros impl caps sr nc ct kt cs ss ops w. subst w.
  rewrite world_run_provider. repeat split.
Qed.

(** ** C9 *)

Lemma close_close {A} (c : Chan.t A) : Chan.close (Chan.close c) = Chan.close c.
Proof. reflexivity. Qed.

(** Closing a stream whose task is done and whose event channel is closed
    changes nothing. *)
Lemma core_aclose_finished s o :
  status (_task s) = Done o -> Chan.closed (_event_ch s) = true ->
  core_aclose s = s.
Proof.
  intros Hs Hc. unfold core_aclose, gracefully_cancel.
  rewrite (task_done_finished Cancelled s Hs).
  open_core s. subst. reflexivity.
Qed.

Lemma core_aclose_state s :
  Chan.closed (_event_ch (core_aclose s)) = true
  /\ status (_task (core_aclose s)) =
       match status (_task s) with
       | Running => Done Cancelled
       | Done o => Done o
       end.
Proof.
  unfold core_aclose, gracefully_cancel, task_done.
  split; [reflexivity|].
  destruct (status (_task s)) as [|o] eqn:Hs; cbn [set_event_ch _task].
  - rewrite fold_callbacks_close.
    destruct (done_callbacks (_task s)); reflexivity.
  - exact Hs.
Qed.

Lemma core_aclose_idempotent s : core_aclose (core_aclose s) = core_aclose s.
Proof.
  destruct (core_aclose_state s) as [Hc Hs].
  destruct (status (_task s)) as [|o];
    eapply core_aclose_finished; eassumption.
Qed.

(** C9.  [aclose] is a total operation on both stream classes and calling
    it again changes nothing: the state after the second call is the state
    after the first, the task is cancelled at most once, and a task that had
    ended by itself keeps its outcome.  On a stream that is exhausted (task
    done, event channel closed) the first call already changes nothing on the
    event side. *)
Theorem aclose_idempotent :
  (forall s : ChunkedStream.t,
      ChunkedStream.aclose (ChunkedStream.aclose s) = ChunkedStream.aclose s
      /\ status (_task (ChunkedStream.aclose (ChunkedStream.aclose s))) =
           match status (_task s) with
           | Running => Done Cancelled
           | Done o => Done o
           end
      /\ (forall o, status (_task s) = Done o ->
                    Chan.closed (_event_ch s) = true ->
                    ChunkedStream.aclose s = s))
  /\ (forall s : SynthesizeStream.t,
      SynthesizeStream.aclose (SynthesizeStream.aclose s) = SynthesizeStream.aclose s
      /\ status (_task (SynthesizeStream.core
                          (SynthesizeStream.aclose (SynthesizeStream.aclose s)))) =
           match status (_task (SynthesizeStream.core s)) with
           | Running => Done Cancelled
           | Done o => Done o
           end
      /\ (forall o, status (_task (SynthesizeStream.core s)) = Done o ->
                    Chan.closed (_event_ch (SynthesizeStream.core s)) = true ->
                    SynthesizeStream.core (SynthesizeStream.aclose s) =
                      SynthesizeStream.core s)).
Proof.
  split.
  - intros s. unfold ChunkedStream.aclose. split; [|split].
    + apply core_aclose_idempotent.
    + rewrite core_aclose_idempotent. apply core_aclose_state.
    + intros o Hs Hc. eapply core_aclose_finished; eassumption.
  - intros s.
    assert (E : SynthesizeStream.aclose (SynthesizeStream.aclose s) =
                SynthesizeStream.aclose s).
    { unfold SynthesizeStream.aclose.
      cbn [SynthesizeStream.set_input_ch SynthesizeStream.set_core
           SynthesizeStream.core SynthesizeStream._input_ch
           SynthesizeStream.cls SynthesizeStream._standby].
      now rewrite core_aclose_idempotent. }
    split; [exact E|split].
    + rewrite E. cbn. apply core_aclose_state.
    + intros o Hs Hc. cbn. eapply core_aclose_finished; eassumption.
Qed.

(** A stream drained after its task succeeded, closed twice. *)
Lemma aclose_idempotent_witness :
  let s := fst (core_run [CTaskSend event1; CTaskDone Succeeded; CNext Silent;
                          CNext Silent]
                  (ChunkedStream.__init__ 0 0)) in
  ChunkedStream.aclose s = s
  /\ ChunkedStream.aclose (ChunkedStream.aclose s) = ChunkedStream.aclose s.
Proof.
  intros s. destruct aclose_idempotent as [H _].
  split.
  - exact (proj2 (proj2 (H s)) Succeeded eq_refl eq_refl).
  - exact (proj1 (H s)).
Defined.

(** ** [collect] *)

Lemma within_cases t d :
  within t d = true -> t <= 0 \/ (0 < t /\ d < t).
Proof.
  unfold within. destruct (Qltb 0 t) eqn:E; cbn.
  - intros H. right. split; now apply Qltb_lt.
  - intros _. left. now apply Qltb_ge.
Qed.

Lemma core_anext_sends_within s d ev :
  waiting s -> within (_timeout s) d = true ->
  core_anext s (Sends d ev) = (Return ev, set_timeout s (_keepalive_timeout s)).
Proof.
  intros W H. destruct (within_cases _ _ H) as [Ht | [Ht Hd]].
  - now apply core_anext_untimed.
  - now apply core_anext_in_time.
Qed.

Lemma core_anext_terminates s d o :
  waiting s -> In CloseEventCh (done_callbacks (_task s)) ->
  within (_timeout s) d = true ->
  core_anext s (Terminates d o) = (Raise StopAsyncIteration, task_done o s).
Proof.
  intros (Hq & Hc & Hs) Hin H. open_core s. subst. unfold_anext.
  rewrite (@task_done_running o
             (mkCore (Chan.mk [] false) (mkTask Running cbs) ct kt t))
    by (cbn; auto).
  cbn [_event_ch _task _timeout _keepalive_timeout _connect_timeout
       Chan.queue Chan.closed status done_callbacks].
  destruct (within_cases _ _ H) as [Ht | [Ht Hd]].
  - apply Qltb_ge in Ht. now rewrite Ht.
  - apply Qltb_lt in Ht, Hd. now rewrite Ht, Hd.
Qed.

(** Where an event comes from when [__anext__] returns one. *)
Lemma core_anext_return s env ev s' :
  core_anext s env = (Return ev, s') ->
  (exists rest, Chan.queue (_event_ch s) = ev :: rest
                /\ Chan.queue (_event_ch s') = rest)
  \/ (Chan.anext_nowait (_event_ch s) = None
      /\ (exists d, env = Sends d ev) /\ Chan.queue (_event_ch s') = []).
Proof.
  open_core s. unfold_anext.
  destruct q as [|x q].
  - destruct c; cbn -[task_done].
    + destruct (Qltb 0 t); intros H; discriminate H.
    + destruct st as [|o']; cbn -[task_done];
        [|destruct (Qltb 0 t); intros H; discriminate H].
      destruct env as [d e | d o |]; cbn -[task_done].
      * destruct (Qltb 0 t); [destruct (Qltb d t)|]; cbn;
          intros H; inversion H; subst; right; eauto.
      * destruct (Chan.closed _); destruct (Qltb 0 t);
          try destruct (Qltb d t); cbn -[task_done]; intros H; discriminate H.
      * destruct (Qltb 0 t); intros H; discriminate H.
  - cbn. destruct (Qltb 0 t); intros H; inversion H; subst; left; eauto.
Qed.

Module CollectFacts.
Import ChunkedStream.

(** The loop always finishes within the fuel [collect] gives it. *)
Lemma collect_loop_total fuel : forall s script acc,
  (List.length (Chan.queue (_event_ch s)) + List.length script < fuel)%nat ->
  collect_loop fuel s script acc <> None.
Proof.
  induction fuel as [|fuel IH]; intros s script acc Hl; [lia|].
  cbn [collect_loop]. unfold __anext__.
  destruct (core_anext s (hd Silent script)) as [r s'] eqn:E.
  destruct r as [ev | e |]; [|destruct e; discriminate|discriminate].
  destruct (core_anext_return _ _ E) as [(rest & Hq & Hq') | (Hn & (d & Hd) & Hq')].
  - unfold Chan.anext_nowait. rewrite Hq. apply IH.
    rewrite Hq in Hl. rewrite Hq'. cbn in Hl. lia.
  - rewrite Hn. apply IH. rewrite Hq'.
    destruct script as [|a script]; [discriminate Hd|]. cbn in *. lia.
Qed.

Lemma collect_total s script : collect s script <> None.
Proof.
  unfold collect.
  pose proof (@collect_loop_total (collect_fuel s script) s script []) as H.
  destruct (collect_loop (collect_fuel s script) s script [])
    as [[[frames | e |] s']|].
  - discriminate.
  - discriminate.
  - discriminate.
  - exfalso. apply H; [|reflexivity]. unfold collect_fuel. lia.
Qed.

(** The events already buffered are taken first, without waiting. *)
Lemma collect_loop_buffered q : forall s fuel script acc,
  Chan.queue (_event_ch s) = q ->
  collect_loop (List.length q + fuel)%nat s script acc =
  collect_loop fuel
    (mkCore (Chan.mk [] (Chan.closed (_event_ch s))) (_task s)
            (_connect_timeout s) (_keepalive_timeout s)
            (match q with [] => _timeout s | _ => _keepalive_timeout s end))
    script (acc ++ map frame q).
Proof.
  induction q as [|ev q IH]; intros s fuel script acc Hq.
  - cbn [List.length plus map]. rewrite app_nil_r.
    open_core s. now subst.
  - cbn [List.length plus collect_loop]. unfold __anext__.
    rewrite (core_anext_buffered s _ Hq).
    unfold Chan.anext_nowait. rewrite Hq.
    rewrite IH by reflexivity.
    cbn [_event_ch _task _connect_timeout _keepalive_timeout _timeout
         Chan.closed map].
    rewrite <- app_assoc. cbn [app].
    destruct q; reflexivity.
Qed.

(** With nothing buffered the loop follows the script. *)
Lemma collect_loop_script evs : forall s fuel acc dend o,
  waiting s -> In CloseEventCh (done_callbacks (_task s)) ->
  in_time (_timeout s) (_keepalive_timeout s) evs dend = true ->
  (List.length evs < fuel)%nat ->
  collect_loop fuel s (script_of evs dend o) acc =
  Some (Return (acc ++ map (fun p => frame (snd p)) evs),
        mkCore (Chan.mk [] true) (mkTask (Done o) (done_callbacks (_task s)))
               (_connect_timeout s) (_keepalive_timeout s)
               (match evs with [] => _timeout s | _ => _keepalive_timeout s end)).
Proof.
  induction evs as [|[d ev] evs IH]; intros s fuel acc dend o W Hin Ht Hl;
    (destruct fuel as [|fuel]; [cbn in Hl; lia|]);
    pose proof W as (Hq & Hc & Hs);
    cbn [collect_loop script_of map app hd tl fst snd]; unfold __anext__.
  - cbn [in_time] in Ht.
    rewrite core_anext_terminates by assumption.
    rewrite task_done_running by assumption.
    rewrite Hq, app_nil_r. reflexivity.
  - cbn [in_time fst] in Ht. apply andb_true_iff in Ht. destruct Ht as [H1 H2].
    rewrite core_anext_sends_within by assumption.
    unfold Chan.anext_nowait. rewrite Hq, Hc.
    change (map (fun p => Sends (fst p) (snd p)) evs ++ [Terminates dend o])
      with (script_of evs dend o).
    rewrite IH.
    + cbn [set_timeout _task _connect_timeout _keepalive_timeout _timeout
           done_callbacks].
      rewrite <- app_assoc. cbn [app]. destruct evs; reflexivity.
    + exact W.
    + exact Hin.
    + exact H2.
    + cbn in Hl. lia.
Qed.

(** Sending to a running task's open channel appends. *)
Lemma presend_running pre : forall s,
  status (_task s) = Running -> Chan.closed (_event_ch s) = false ->
  presend pre s =
    mkCore (Chan.mk (Chan.queue (_event_ch s) ++ pre) false) (_task s)
           (_connect_timeout s) (_keepalive_timeout s) (_timeout s).
Proof.
  unfold presend.
  induction pre as [|ev pre IH]; intros s Hs Hc; cbn [fold_left].
  - rewrite app_nil_r. open_core s. now subst.
  - unfold task_send at 2. unfold Chan.send_nowait. rewrite Hs, Hc.
    rewrite IH by (cbn; auto).
    cbn [set_event_ch _event_ch _task _connect_timeout _keepalive_timeout
         _timeout Chan.queue].
    now rewrite <- app_assoc.
Qed.

Lemma merge_frames_same f rest :
  forallb (same_format f) rest = true ->
  merge_frames (f :: rest) =
    Return (mkAudioFrame (List.concat (map data (f :: rest)))
                         (frame_sample_rate f) (frame_num_channels f)).
Proof.
  intros H. unfold merge_frames. cbn [forallb]. rewrite H.
  unfold same_format. now rewrite !Z.eqb_refl.
Qed.

End CollectFacts.

(** ** C7 *)

(** C7.  A [ChunkedStream] whose task has sent the events of [pre], sends
    those of [evs] while [collect] waits, each within the deadline in force,
    and then ends: [collect] finishes and returns one frame whose samples
    are those of all the frames, in the order sent, provided there is at
    least one frame and all have the format of the first.  Afterwards the
    stream is closed: nothing is buffered, the event channel is closed, the
    task is done, [__anext__] signals the end and [aclose] changes nothing. *)
Theorem collect_concatenates :
  forall (ct kt : Q) (pre : list SynthesizedAudio)
         (evs : list (Q * SynthesizedAudio)) (dend : Q) (o : TaskOutcome)
         (f : AudioFrame) (rest : list AudioFrame),
    map frame pre ++ map (fun p => frame (snd p)) evs = f :: rest ->
    forallb (same_format f) rest = true ->
    in_time (match pre with [] => ct | _ => kt end) kt evs dend = true ->
    let s := presend pre (ChunkedStream.__init__ ct kt) in
    exists s',
      ChunkedStream.collect s (script_of evs dend o) =
        Some (Return (mkAudioFrame (List.concat (map data (f :: rest)))
                                   (frame_sample_rate f) (frame_num_channels f)),
              s')
      /\ Chan.queue (_event_ch s') = []
      /\ Chan.closed (_event_ch s') = true
      /\ status (_task s') = Done o
      /\ ChunkedStream.aclose s' = s'
      /\ forall env,
           fst (ChunkedStream.__anext__ s' env) = Raise StopAsyncIteration.
Proof.
  intros ct kt pre evs dend o f rest Hfr Hfmt Ht s.
  assert (Es : s = mkCore (Chan.mk pre false)
                     (add_done_callback create_task CloseEventCh) ct kt ct).
  { subst s. unfold ChunkedStream.__init__.
    rewrite CollectFacts.presend_running by reflexivity. reflexivity. }
  set (s1 := mkCore (Chan.mk [] false)
               (add_done_callback create_task CloseEventCh) ct kt
               (match pre with [] => ct | _ => kt end)).
  set (s' := mkCore (Chan.mk [] true)
               (mkTask (Done o) (done_callbacks (_task s1))) ct kt
               (match evs with
                | [] => match pre with [] => ct | _ => kt end
                | _ => kt
                end)).
  assert (Hloop : ChunkedStream.collect_loop
                    (ChunkedStream.collect_fuel s (script_of evs dend o)) s
                    (script_of evs dend o) [] =
                  Some (Return (f :: rest), s')).
  { unfold ChunkedStream.collect_fuel.
    replace (S (List.length (Chan.queue (_event_ch s))
                + List.length (script_of evs dend o)))
      with (List.length pre + S (S (List.length evs)))%nat.
    2:{ rewrite Es. unfold script_of. rewrite length_app, length_map.
        cbn. lia. }
    rewrite (@CollectFacts.collect_loop_buffered pre s) by (now rewrite Es).
    rewrite Es.
    cbn [_event_ch _task _connect_timeout _keepalive_timeout _timeout
         Chan.closed app].
    fold s1.
    rewrite (@CollectFacts.collect_loop_script evs s1).
    - rewrite Hfr. reflexivity.
    - repeat split.
    - cbn. now left.
    - exact Ht.
    - lia. }
  exists s'.
  split; [|split; [reflexivity|split; [reflexivity|split; [reflexivity|split]]]].
  - unfold ChunkedStream.collect. rewrite Hloop.
    now rewrite CollectFacts.merge_frames_same.
  - unfold ChunkedStream.aclose.
    now apply (@core_aclose_finished s' o).
  - intros env. unfold ChunkedStream.__anext__.
    now rewrite core_anext_exhausted.
Qed.

(** Three frames of one format, the first sent before [collect] starts,
    under a connect timeout of one second and a keepalive timeout of two. *)
Lemma collect_concatenates_witness :
  exists s',
    ChunkedStream.collect
      (presend [event1] (ChunkedStream.__init__ 1 2))
      (script_of [((3#2)%Q, event2); ((1#2)%Q, event3)] 1 Succeeded) =
    Some (Return (mkAudioFrame [1; 2; 3; 4; 5; 6]%Z 24000 1), s')
    /\ Chan.closed (_event_ch s') = true.
Proof.
  destruct (@collect_concatenates 1 2 [event1]
              [((3#2)%Q, event2); ((1#2)%Q, event3)] 1 Succeeded
              frame1 [frame2; frame3] eq_refl eq_refl eq_refl)
    as (s' & H1 & _ & H2 & _).
  exists s'. split; [exact H1 | exact H2].
Defined.


(** * Further properties of the code *)

(** ** The event channel and the task along a run *)

Lemma core_init_wf ct kt : core_wf (core_init ct kt).
Proof.
  split; [apply core_init_inv|]. cbn. intros H. discriminate H.
Qed.

Lemma task_done_wf o s : core_wf s -> core_wf (task_done o s).
Proof.
  intros [Hi Hc]. split; [now apply task_done_inv|].
  destruct (status (_task s)) as [|o'] eqn:Hs.
  - destruct Hi as [Hin _]. rewrite task_done_running by assumption.
    cbn. eauto.
  - rewrite (task_done_finished o s Hs). intros _. rewrite ?Hs. eauto.
Qed.

Lemma task_send_wf ev s : core_wf s -> core_wf (task_send ev s).
Proof.
  intros [Hi Hc]. split; [now apply task_send_inv|].
  unfold task_send, Chan.send_nowait.
  destruct (status (_task s)) as [|o'] eqn:Hs;
    [|intros _; rewrite ?Hs; eauto].
  destruct (Chan.closed (_event_ch s)) eqn:E.
  - intros _. destruct (Hc eq_refl) as [o H]. discriminate H.
  - cbn. intros H. discriminate H.
Qed.

Lemma core_aclose_wf s : core_wf s -> core_wf (core_aclose s).
Proof.
  intros [Hi Hc]. split; [now apply core_aclose_inv|].
  intros _. destruct (core_aclose_state s) as [_ Hs]. rewrite Hs.
  destruct (status (_task s)); eauto.
Qed.

Lemma core_anext_wf s env : core_wf s -> core_wf (snd (core_anext s env)).
Proof.
  intros [Hi Hc]. split; [now apply core_anext_inv|].
  destruct Hi as [Hin _]. open_core s. unfold_anext.
  destruct (Qltb 0 t);
    (destruct q as [|x q]; [destruct c|];
       cbn -[task_done]; [exact Hc|  |exact Hc];
     destruct st as [|o']; cbn -[task_done]; [|exact Hc];
     destruct env as [d ev | d o |]; cbn -[task_done]; try exact Hc).
  - destruct (Qltb d t); exact Hc.
  - rewrite (@task_done_running o
               (mkCore (Chan.mk [] false) (mkTask Running cbs) ct kt t))
      by (cbn; auto).
    cbn. destruct (Qltb d t); cbn; [eauto|exact Hc].
  - rewrite (@task_done_running o
               (mkCore (Chan.mk [] false) (mkTask Running cbs) ct kt t))
      by (cbn; auto).
    cbn. eauto.
Qed.

Lemma core_step_wf s op : core_wf s -> core_wf (fst (core_step s op)).
Proof.
  intros H. destruct op as [env | | ev | o]; cbn [core_step].
  - pose proof (core_anext_wf env H) as H'.
    now destruct (core_anext s env).
  - now apply core_aclose_wf.
  - now apply task_send_wf.
  - now apply task_done_wf.
Qed.

Lemma core_run_from_wf ops : forall s tr,
  core_wf s -> core_wf (fst (core_run_from ops s tr)).
Proof.
  induction ops as [|op ops IH]; intros s tr H; cbn [core_run_from]; [exact H|].
  pose proof (core_step_wf op H) as H'.
  destruct (core_step s op) as [s' r]. now apply IH.
Qed.

(** What [__anext__] leaves behind when it signals the end. *)
Lemma core_anext_stop s env s' :
  core_anext s env = (Raise StopAsyncIteration, s') ->
  Chan.queue (_event_ch s') = [] /\ Chan.closed (_event_ch s') = true
  /\ _timeout s' = _timeout s.
Proof.
  open_core s. unfold_anext.
  destruct q as [|x q].
  - destruct c; cbn -[task_done].
    + destruct (Qltb 0 t); intros H; inversion H; subst; auto.
    + destruct st as [|o']; cbn -[task_done];
        [|destruct (Qltb 0 t); intros H; discriminate H].
      destruct env as [d e | d o |]; cbn -[task_done].
      * destruct (Qltb 0 t); [destruct (Qltb d t)|]; intros H; discriminate H.
      * destruct (task_done_timeouts o
                    (mkCore (Chan.mk [] false) (mkTask Running cbs) ct kt t))
          as (_ & _ & Ht).
        unfold task_done. cbn [_task status done_callbacks set_task _event_ch].
        unfold task_done in Ht.
        cbn [_task status done_callbacks set_task _event_ch] in Ht.
        rewrite fold_callbacks_close in *.
        destruct cbs as [|cb cbs]; cbn in *.
        -- destruct (Qltb 0 t); intros H; discriminate H.
        -- destruct (Qltb 0 t); [destruct (Qltb d t)|]; cbn;
             intros H; inversion H; subst; auto.
      * destruct (Qltb 0 t); intros H; discriminate H.
  - cbn. destruct (Qltb 0 t); intros H; discriminate H.
Qed.

Lemma exhausted_step s op : exhausted s -> fst (core_step s op) = s.
Proof.
  intros (Hq & Hc & o & Hs). destruct op as [env | | ev | o']; cbn [core_step].
  - now rewrite core_anext_exhausted.
  - cbn [fst]. now apply (@core_aclose_finished s o).
  - cbn [fst]. unfold task_send. now rewrite Hs.
  - cbn [fst]. now apply (@task_done_finished o' s o).
Qed.

Lemma exhausted_run_from ops : forall s tr,
  exhausted s -> fst (core_run_from ops s tr) = s.
Proof.
  induction ops as [|op ops IH]; intros s tr H; cbn [core_run_from];
    [reflexivity|].
  pose proof (exhausted_step op H) as E.
  destruct (core_step s op) as [s' r]. cbn [fst] in E. subst s'.
  now apply IH.
Qed.

Lemma chunked_reachable_wf ct kt ops :
  core_wf (fst (core_run ops (ChunkedStream.__init__ ct kt))).
Proof. apply core_run_from_wf, core_init_wf. Qed.

Lemma synthesize_reachable_wf cls ct kt ops :
  core_wf (SynthesizeStream.core
             (fst (SynthesizeOps.run ops (SynthesizeStream.__init__ cls ct kt)))).
Proof.
  unfold SynthesizeOps.run.
  destruct (synth_run_from_core ops (SynthesizeStream.__init__ cls ct kt) [])
    as [Hc _].
  rewrite Hc. apply core_run_from_wf, core_init_wf.
Qed.

Lemma core_anext_stop_exhausted s env s' :
  core_wf s -> core_anext s env = (Raise StopAsyncIteration, s') ->
  exhausted s' /\ _timeout s' = _timeout s.
Proof.
  intros Hwf H. destruct (core_anext_stop _ _ H) as (Hq & Hc & Ht).
  pose proof (core_anext_wf env Hwf) as [_ Hd]. rewrite H in Hd. cbn [snd] in Hd.
  repeat split; auto.
Qed.

(** ** X1: the end of the stream is final *)

(** X1.  Once [__anext__] of a stream has signalled the end of the stream,
    the stream is exhausted and stays as it is under every later operation
    of the consumer and of the task: every later [__anext__] signals the end
    again.  Signalling the end does not move the deadline either: line 105
    (176) is not reached. *)
Theorem end_of_stream_is_final :
  forall (ct kt : Q),
    (forall ops env s1 ops' env',
        let s := fst (core_run ops (ChunkedStream.__init__ ct kt)) in
        ChunkedStream.__anext__ s env = (Raise StopAsyncIteration, s1) ->
        _timeout s1 = _timeout s
        /\ fst (core_run ops' s1) = s1
        /\ ChunkedStream.__anext__ (fst (core_run ops' s1)) env' =
             (Raise StopAsyncIteration, s1))
    /\ (forall cls ops env s1 ops' env',
        let s := fst (SynthesizeOps.run ops (SynthesizeStream.__init__ cls ct kt)) in
        SynthesizeStream.__anext__ s env = (Raise StopAsyncIteration, s1) ->
        _timeout (SynthesizeStream.core s1) = _timeout (SynthesizeStream.core s)
        /\ fst (SynthesizeStream.__anext__
                  (fst (SynthesizeOps.run ops' s1)) env') =
             Raise StopAsyncIteration).
Proof.
  intros ct kt. split.
  - intros ops env s1 ops' env' s H. unfold ChunkedStream.__anext__ in *.
    destruct (@core_anext_stop_exhausted _ _ _
                (chunked_reachable_wf ct kt ops) H) as [Hex Ht].
    assert (E : fst (core_run ops' s1) = s1) by now apply exhausted_run_from.
    repeat split; auto.
    rewrite E. destruct Hex as (Hq & Hc & _). now apply core_anext_exhausted.
  - intros cls ops env s1 ops' env' s H.
    destruct (synth_anext_inv _ _ H) as [Hcore _].
    destruct (@core_anext_stop_exhausted _ _ _
                (synthesize_reachable_wf cls ct kt ops) Hcore) as [Hex Ht].
    split; [exact Ht|].
    rewrite synth_anext_fst. unfold SynthesizeOps.run.
    destruct (synth_run_from_core ops' s1 []) as [Hc _]. rewrite Hc.
    rewrite exhausted_run_from by assumption.
    destruct Hex as (Hq & Hcl & _). now rewrite core_anext_exhausted.
Qed.

(** The task of a fresh stream ends at once; the end is signalled, and
    again after the task is told to send and the stream is closed. *)
Lemma end_of_stream_is_final_witness :
  let s0 := ChunkedStream.__init__ 1 2 in
  let s1 := snd (ChunkedStream.__anext__ s0 (Terminates (1#2) Failed)) in
  _timeout s1 = 1%Q
  /\ fst (ChunkedStream.__anext__
            (fst (core_run [CTaskSend event1; CAclose] s1)) (Sends 0 event1))
     = Raise StopAsyncIteration.
Proof.
  intros s0 s1.
  destruct (end_of_stream_is_final 1 2) as [H _].
  destruct (H [] (Terminates (1#2) Failed) s1 [CTaskSend event1; CAclose]
              (Sends 0 event1) eq_refl) as (Ht & _ & Hn).
  split; [exact Ht|]. now rewrite Hn.
Defined.

(** ** X2: a closed event channel never makes the consumer wait *)

Lemma core_step_keeps_closed s op :
  Chan.closed (_event_ch s) = true ->
  Chan.closed (_event_ch (fst (core_step s op))) = true.
Proof.
  intros Hc. destruct op as [env | | ev | o]; cbn [core_step].
  - open_core s. subst. unfold_anext.
    destruct (Qltb 0 t); destruct q; reflexivity.
  - reflexivity.
  - cbn [fst]. unfold task_send, Chan.send_nowait. rewrite Hc.
    now destruct (status (_task s)).
  - cbn [fst]. unfold task_done.
    destruct (status (_task s)); [|exact Hc].
    rewrite fold_callbacks_close.
    destruct (done_callbacks (_task s)); [exact Hc|reflexivity].
Qed.

Lemma core_run_from_keeps_closed ops : forall s tr,
  Chan.closed (_event_ch s) = true ->
  Chan.closed (_event_ch (fst (core_run_from ops s tr))) = true.
Proof.
  induction ops as [|op ops IH]; intros s tr H; cbn [core_run_from]; [exact H|].
  pose proof (@core_step_keeps_closed s op H) as H'.
  destruct (core_step s op) as [s' r]. now apply IH.
Qed.

Lemma core_anext_closed s env :
  Chan.closed (_event_ch s) = true ->
  (exists ev, fst (core_anext s env) = Return ev)
  \/ fst (core_anext s env) = Raise StopAsyncIteration.
Proof.
  intros Hc. destruct (Chan.queue (_event_ch s)) as [|ev q] eqn:Hq.
  - right. now rewrite core_anext_exhausted.
  - left. exists ev. now rewrite (core_anext_buffered s env Hq).
Qed.

(** X2.  Once the event channel of a stream is closed, because the task has
    ended or [aclose] was called, it stays closed, and every later
    [__anext__] comes back at once with a buffered event or with the end of
    the stream: it neither blocks nor raises a timeout, whatever the
    deadline.  In particular this holds after [aclose] of any stream. *)
Theorem closed_stream_never_waits :
  (forall (s : ChunkedStream.t) ops env,
      Chan.closed (_event_ch s) = true ->
      let s' := fst (core_run ops s) in
      Chan.closed (_event_ch s') = true
      /\ ((exists ev, fst (ChunkedStream.__anext__ s' env) = Return ev)
          \/ fst (ChunkedStream.__anext__ s' env) = Raise StopAsyncIteration))
  /\ (forall (s : SynthesizeStream.t) ops env,
      Chan.closed (_event_ch (SynthesizeStream.core s)) = true ->
      let s' := fst (SynthesizeOps.run ops s) in
      Chan.closed (_event_ch (SynthesizeStream.core s')) = true
      /\ ((exists ev, fst (SynthesizeStream.__anext__ s' env) = Return ev)
          \/ fst (SynthesizeStream.__anext__ s' env) = Raise StopAsyncIteration))
  /\ (forall s : ChunkedStream.t,
        Chan.closed (_event_ch (ChunkedStream.aclose s)) = true)
  /\ (forall s : SynthesizeStream.t,
        Chan.closed (_event_ch (SynthesizeStream.core
                                  (SynthesizeStream.aclose s))) = true).
Proof.
  split; [|split; [|split]].
  - intros s ops env Hc s'.
    assert (Hc' : Chan.closed (_event_ch s') = true)
      by now apply core_run_from_keeps_closed.
    split; [exact Hc'|]. now apply core_anext_closed.
  - intros s ops env Hc s'.
    assert (Hc' : Chan.closed (_event_ch (SynthesizeStream.core s')) = true).
    { subst s'. unfold SynthesizeOps.run.
      destruct (synth_run_from_core ops s []) as [E _]. rewrite E.
      now apply core_run_from_keeps_closed. }
    split; [exact Hc'|]. rewrite synth_anext_fst. now apply core_anext_closed.
  - intros s. reflexivity.
  - intros s. reflexivity.
Qed.

(** A stream with one event buffered and a deadline of one second is
    closed; the event is still handed out although the arrival is late. *)
Lemma closed_stream_never_waits_witness :
  let s := ChunkedStream.aclose (presend [event1] (ChunkedStream.__init__ 1 1)) in
  (exists ev, fst (ChunkedStream.__anext__ s Silent) = Return ev)
  \/ fst (ChunkedStream.__anext__ s Silent) = Raise StopAsyncIteration.
Proof.
  intros s. destruct closed_stream_never_waits as [H _].
  exact (proj2 (H s [] Silent eq_refl)).
Defined.

(** ** X3: buffered events are handed out in order, without waiting *)

Lemma core_iterate_buffered q : forall s envs,
  Chan.queue (_event_ch s) = q -> List.length envs = List.length q ->
  core_iterate envs s =
    (map (@Return _) q,
     mkCore (Chan.mk [] (Chan.closed (_event_ch s))) (_task s)
            (_connect_timeout s) (_keepalive_timeout s)
            (match q with [] => _timeout s | _ => _keepalive_timeout s end)).
Proof.
  induction q as [|ev q IH]; intros s envs Hq Hl;
    destruct envs as [|env envs]; try discriminate Hl; cbn [core_iterate map].
  - open_core s. now subst.
  - rewrite (core_anext_buffered s env Hq).
    rewrite (IH (mkCore (Chan.mk q (Chan.closed (_event_ch s))) (_task s)
                   (_connect_timeout s) (_keepalive_timeout s)
                   (_keepalive_timeout s)) envs eq_refl)
      by (cbn in Hl; now inversion Hl).
    cbn [_event_ch _task _connect_timeout _keepalive_timeout _timeout
         Chan.closed].
    destruct q; reflexivity.
Qed.

(** X3.  Whatever the deadline and whatever the task does meanwhile, as
    many calls of [__anext__] as events are buffered return these events in
    the order in which they were sent; afterwards nothing is buffered, the
    channel is open or closed as before, and the deadline is
    [keepalive_timeout] if there was an event at all. *)
Theorem buffered_events_in_order :
  forall (s : StreamCore) (envs : list Arrival),
    List.length envs = List.length (Chan.queue (_event_ch s)) ->
    (fst (core_iterate envs s) = map (@Return _) (Chan.queue (_event_ch s))
     /\ Chan.queue (_event_ch (snd (core_iterate envs s))) = []
     /\ Chan.closed (_event_ch (snd (core_iterate envs s))) =
          Chan.closed (_event_ch s)
     /\ (Chan.queue (_event_ch s) <> [] ->
         _timeout (snd (core_iterate envs s)) = _keepalive_timeout s))
    /\ (forall cls input standby,
          fst (synthesize_iterate envs (SynthesizeStream.mk cls input s standby))
          = map (@Return _) (Chan.queue (_event_ch s))).
Proof.
  intros s envs Hl.
  pose proof (@core_iterate_buffered (Chan.queue (_event_ch s)) s envs
                eq_refl Hl) as E.
  split.
  - rewrite E. cbn [fst snd _event_ch Chan.queue Chan.closed _timeout].
    repeat split. intros Hne.
    destruct (Chan.queue (_event_ch s)); [now destruct Hne|reflexivity].
  - intros cls input standby. rewrite synthesize_iterate_core.
    cbn [SynthesizeStream.core]. now rewrite E.
Qed.

(** Two events sent before the consumer starts, under a deadline of one
    second, are returned although each arrival is announced as late. *)
Lemma buffered_events_in_order_witness :
  fst (core_iterate [Sends 5 event3; Silent]
         (presend [event1; event2] (ChunkedStream.__init__ 1 1)))
  = [Return event1; Return event2].
Proof.
  exact (proj1 (proj1 (@buffered_events_in_order
                         (presend [event1; event2] (ChunkedStream.__init__ 1 1))
                         [Sends 5 event3; Silent] eq_refl))).
Defined.

(** ** X4: when a timeout is raised *)

(** X4.  [__anext__] raises a timeout only on a stream whose deadline is
    positive, that has nothing buffered and whose event channel is open;
    the error then carries the message "synthesis timed out" and the stream
    is returned as it was. *)
Theorem timeout_only_when_waiting :
  (forall (s : ChunkedStream.t) env msg s',
      ChunkedStream.__anext__ s env = (Raise (TimeoutError msg), s') ->
      msg = "synthesis timed out" /\ s' = s /\ 0 < _timeout s
      /\ Chan.queue (_event_ch s) = [] /\ Chan.closed (_event_ch s) = false)
  /\ (forall (s : SynthesizeStream.t) env msg s',
      SynthesizeStream.__anext__ s env = (Raise (TimeoutError msg), s') ->
      msg = "synthesis timed out" /\ s' = s
      /\ 0 < _timeout (SynthesizeStream.core s)
      /\ Chan.queue (_event_ch (SynthesizeStream.core s)) = []
      /\ Chan.closed (_event_ch (SynthesizeStream.core s)) = false).
Proof.
  split.
  - intros s env msg s' H. exact (core_anext_timeout_inv _ _ H).
  - intros s env msg s' H.
    destruct (synth_anext_inv _ _ H) as [Hcore Hs'].
    destruct (core_anext_timeout_inv _ _ Hcore) as (Hm & E & Ht & Hq & Hc).
    rewrite E, set_core_same in Hs'. auto.
Qed.

Lemma timeout_only_when_waiting_witness :
  0 < _timeout (ChunkedStream.__init__ 1 5)
  /\ Chan.queue (_event_ch (ChunkedStream.__init__ 1 5)) = [].
Proof.
  destruct timeout_only_when_waiting as [H _].
  destruct (H (ChunkedStream.__init__ 1 5) (Sends 2 event1)
              "synthesis timed out" (ChunkedStream.__init__ 1 5) eq_refl)
    as (_ & _ & Ht & Hq & _).
  split; [exact Ht | exact Hq].
Defined.

(** ** X5: no deadline, no timeout *)

Lemma core_run_from_untimed ct kt ops : forall s tr,
  ct <= 0 -> kt <= 0 -> schedule ct kt s tr ->
  existsb is_timeout tr = false ->
  existsb is_timeout (snd (core_run_from ops s tr)) = false.
Proof.
  induction ops as [|op ops IH]; intros s tr Hct Hkt Hs Htr;
    cbn [core_run_from]; [exact Htr|].
  pose proof (core_step_schedule op Hs) as Hs'.
  assert (Hlog : existsb is_timeout (log (snd (core_step s op)) tr) = false).
  { destruct op as [env | | ev | o]; cbn [core_step]; try exact Htr.
    assert (Ht : _timeout s <= 0).
    { destruct Hs as (_ & _ & E). rewrite E. now destruct (received tr). }
    pose proof (@core_anext_untimed_no_timeout s env) as Hno.
    destruct (core_anext s env) as [r s']. cbn [snd log fst] in *.
    rewrite existsb_app, Htr. cbn. rewrite orb_false_r.
    destruct r as [ev | e |]; try reflexivity.
    destruct e; try reflexivity. exfalso. now apply (Hno msg Ht). }
  destruct (core_step s op) as [s' r]. cbn [fst snd] in *. now apply IH.
Qed.

(** X5.  A stream built with timeouts that are not positive, as the
    defaults are, never raises a timeout: in every run, whatever the
    consumer and the task do, no call of [__anext__] ends in a timeout
    error. *)
Theorem untimed_stream_never_times_out :
  forall ct kt : Q,
    ct <= 0 -> kt <= 0 ->
    (forall ops,
        existsb is_timeout
          (snd (core_run ops (ChunkedStream.__init__ ct kt))) = false)
    /\ (forall cls ops,
        existsb is_timeout
          (snd (SynthesizeOps.run ops (SynthesizeStream.__init__ cls ct kt)))
        = false).
Proof.
  intros ct kt Hct Hkt. split.
  - intros ops.
    now apply (@core_run_from_untimed ct kt ops _ [] Hct Hkt
                 (core_init_schedule ct kt)).
  - intros cls ops. unfold SynthesizeOps.run.
    destruct (synth_run_from_core ops (SynthesizeStream.__init__ cls ct kt) [])
      as [_ Htr].
    rewrite Htr.
    now apply (@core_run_from_untimed ct kt (core_ops ops) _ [] Hct Hkt
                 (core_init_schedule ct kt)).
Qed.

(** The default timeouts. *)
Lemma untimed_stream_never_times_out_witness :
  existsb is_timeout
    (snd (core_run [CNext (Sends 1000 event1); CNext Silent]
            (ChunkedStream.__init__ default_timeout default_timeout))) = false.
Proof.
  assert (H : default_timeout <= 0) by discriminate.
  exact (proj1 (untimed_stream_never_times_out H H) _).
Defined.

(** ** X6: the input side does not reach the consumer *)




(** ** X7: input is handed to the task in the order given *)

Lemma send_all_open ins : forall s,
  Chan.closed (SynthesizeStream._input_ch s) = false ->
  Chan.closed (_event_ch (SynthesizeStream.core s)) = false ->
  exists s',
    send_all ins s = Return s'
    /\ Chan.queue (SynthesizeStream._input_ch s') =
         Chan.queue (SynthesizeStream._input_ch s) ++ ins
    /\ Chan.closed (SynthesizeStream._input_ch s') = false
    /\ SynthesizeStream.core s' = SynthesizeStream.core s.
Proof.
  induction ins as [|x ins IH]; intros s H1 H2; cbn [send_all].
  - exists s. rewrite app_nil_r. auto.
  - set (s1 := SynthesizeStream.set_input_ch s
                 (Chan.mk (Chan.queue (SynthesizeStream._input_ch s) ++ [x])
                    false)).
    destruct (IH s1 eq_refl H2) as (s' & E & Hq & Hc & Hcore).
    exists s'. split; [|split; [|split]].
    + destruct x as [token|];
        unfold SynthesizeStream.push_text, SynthesizeStream.flush,
          SynthesizeStream._check_input_not_ended,
          SynthesizeStream._check_not_closed, Chan.send_nowait;
        rewrite H1, H2; cbn [bind]; exact E.
    + rewrite Hq. subst s1. cbn. now rewrite <- app_assoc.
    + exact Hc.
    + exact Hcore.
Qed.

(** X7.  On a stream whose input and event channels are open, any sequence
    of [push_text] and [flush] calls succeeds as a whole, appends its tokens
    and markers behind the input already buffered, in the order of the
    calls, and leaves the event side alone; the background task then takes
    exactly this input, in this order. *)
Theorem pushed_input_keeps_order :
  forall (s : SynthesizeStream.t) (ins : list SynthesizeStream.Input),
    Chan.closed (SynthesizeStream._input_ch s) = false ->
    Chan.closed (_event_ch (SynthesizeStream.core s)) = false ->
    exists s',
      send_all ins s = Return s'
      /\ Chan.queue (SynthesizeStream._input_ch s') =
           Chan.queue (SynthesizeStream._input_ch s) ++ ins
      /\ SynthesizeStream.core s' = SynthesizeStream.core s
      /\ fst (SynthesizeOps.take_inputs
                (List.length (Chan.queue (SynthesizeStream._input_ch s) ++ ins))
                s')
         = Chan.queue (SynthesizeStream._input_ch s) ++ ins.
Proof.
  intros s ins H1 H2.
  destruct (send_all_open ins s H1 H2) as (s' & E & Hq & _ & Hcore).
  exists s'. repeat split; auto.
  rewrite SynthesizeFacts.take_inputs_firstn, Hq. apply firstn_all.
Qed.

Lemma pushed_input_keeps_order_witness :
  exists s',
    send_all [SynthesizeStream.Token "hel"; SynthesizeStream.Token "lo";
              SynthesizeStream._FlushSentinel; SynthesizeStream._FlushSentinel]
             (SynthesizeStream.__init__ "tts.Stream" 0 0) = Return s'
    /\ fst (SynthesizeOps.take_inputs 4 s') =
         [SynthesizeStream.Token "hel"; SynthesizeStream.Token "lo";
          SynthesizeStream._FlushSentinel; SynthesizeStream._FlushSentinel].
Proof.
  destruct (@pushed_input_keeps_order
              (SynthesizeStream.__init__ "tts.Stream" 0 0)
              [SynthesizeStream.Token "hel"; SynthesizeStream.Token "lo";
               SynthesizeStream._FlushSentinel; SynthesizeStream._FlushSentinel]
              eq_refl eq_refl) as (s' & E & _ & _ & Ht).
  exists s'. split; [exact E | exact Ht].
Defined.

(** ** X8: [end_input] a second time *)

Lemma end_input_ended s :
  Chan.closed (SynthesizeStream._input_ch s) = true ->
  SynthesizeStream.end_input s = Raise (SynthesizeStream.InputEnded s).
Proof.
  intros H. unfold SynthesizeStream.end_input.
  now rewrite SynthesizeFacts.flush_ended.
Qed.

(** X8.  [end_input] is not repeatable: after an [end_input] that
    returned, and after [aclose], every later [end_input] raises
    [InputEnded].  On a stream whose task has ended while the input channel
    is open it raises [StreamClosed] before line 148 is reached, so the input
    channel stays open and the stream is as it was. *)
Theorem end_input_only_once :
  forall (s : SynthesizeStream.t) (ops : list SynthesizeOps.Op),
    (forall s1, SynthesizeStream.end_input s = Return s1 ->
       SynthesizeStream.end_input (fst (SynthesizeOps.run ops s1))
         = Raise (SynthesizeStream.InputEnded s))
    /\ SynthesizeStream.end_input
         (fst (SynthesizeOps.run ops (SynthesizeStream.aclose s)))
       = Raise (SynthesizeStream.InputEnded s)
    /\ (Chan.closed (SynthesizeStream._input_ch s) = false ->
        Chan.closed (_event_ch (SynthesizeStream.core s)) = true ->
        SynthesizeStream.end_input s = Raise (SynthesizeStream.StreamClosed s)
        /\ fst (SynthesizeOps.step s SynthesizeOps.EndInput) = s
        /\ Chan.closed (SynthesizeStream._input_ch
                          (fst (SynthesizeOps.step s SynthesizeOps.EndInput)))
           = false).
Proof.
  intros s ops.
  assert (Hgen : forall u, Chan.closed (SynthesizeStream._input_ch u) = true ->
                 SynthesizeStream.cls u = SynthesizeStream.cls s ->
                 SynthesizeStream.end_input (fst (SynthesizeOps.run ops u))
                 = Raise (SynthesizeStream.InputEnded s)).
  { intros u Hu Hcls.
    destruct (SynthesizeFacts.run_from_keeps_input_closed ops u []) as [Hc Hi].
    unfold SynthesizeOps.run. rewrite end_input_ended by auto.
    unfold SynthesizeStream.InputEnded. now rewrite Hc, Hcls. }
  split; [|split].
  - intros s1 H.
    destruct (SynthesizeFacts.end_input_returns s H) as (_ & _ & ->).
    now apply Hgen.
  - now apply Hgen.
  - intros H1 H2.
    assert (E : SynthesizeStream.end_input s =
                Raise (SynthesizeStream.StreamClosed s)).
    { unfold SynthesizeStream.end_input.
      now rewrite SynthesizeFacts.flush_closed. }
    split; [exact E|]. cbn [SynthesizeOps.step fst]. rewrite E.
    cbn [SynthesizeOps.keep]. auto.
Qed.

Lemma end_input_only_once_witness :
  let s := SynthesizeStream.__init__ "tts.Stream" 0 0 in
  let s1 := SynthesizeStream.set_input_ch s
              (Chan.mk [SynthesizeStream._FlushSentinel] true) in
  let s2 := SynthesizeStream.set_core s
              (task_done Succeeded (SynthesizeStream.core s)) in
  SynthesizeStream.end_input (fst (SynthesizeOps.run [] s1))
    = Raise (SynthesizeStream.InputEnded s)
  /\ SynthesizeStream.end_input s2 = Raise (SynthesizeStream.StreamClosed s2).
Proof.
  intros s s1 s2. split.
  - destruct (end_input_only_once s []) as (H & _).
    exact (H s1 eq_refl).
  - destruct (end_input_only_once s2 []) as (_ & _ & H).
    exact (proj1 (H eq_refl eq_refl)).
Defined.

(** ** X9: [collect] passes a timeout on and does not close the stream *)

Lemma collect_loop_late evs : forall s fuel acc env tail,
  waiting s ->
  all_within (_timeout s) (_keepalive_timeout s) evs = true ->
  0 < match evs with [] => _timeout s | _ => _keepalive_timeout s end ->
  late (match evs with [] => _timeout s | _ => _keepalive_timeout s end) env ->
  (List.length evs < fuel)%nat ->
  ChunkedStream.collect_loop fuel s
    (map (fun p => Sends (fst p) (snd p)) evs ++ env :: tail) acc =
  Some (Raise timed_out,
        set_timeout s
          (match evs with [] => _timeout s | _ => _keepalive_timeout s end)).
Proof.
  induction evs as [|[d ev] evs IH]; intros s fuel acc env tail W Hw Hpos Hl Hf;
    (destruct fuel as [|fuel]; [cbn in Hf; lia|]);
    pose proof W as (Hq & Hc & Hs);
    cbn [ChunkedStream.collect_loop map app hd tl fst snd];
    unfold ChunkedStream.__anext__.
  - rewrite core_anext_late by assumption.
    open_core s. now subst.
  - cbn [all_within fst] in Hw. apply andb_true_iff in Hw. destruct Hw as [H1 H2].
    rewrite core_anext_sends_within by assumption.
    unfold Chan.anext_nowait. rewrite Hq, Hc.
    rewrite IH.
    + cbn [set_timeout _event_ch _task _connect_timeout _keepalive_timeout
           _timeout].
      destruct evs; reflexivity.
    + exact W.
    + exact H2.
    + cbn [set_timeout _timeout _keepalive_timeout]. now destruct evs.
    + cbn [set_timeout _timeout _keepalive_timeout]. now destruct evs.
    + cbn in Hf. lia.
Qed.

(** X9.  When, after the events of [pre] and [evs], nothing arrives within
    the deadline in force and that deadline is positive, [collect] raises
    the timeout error instead of returning the frames received so far, and
    it does not close the stream: the event channel is still open and the
    task still running. *)
Theorem collect_passes_timeout_on :
  forall (ct kt : Q) (pre : list SynthesizedAudio)
         (evs : list (Q * SynthesizedAudio)) (env : Arrival)
         (tail : list Arrival),
    let t0 := match pre with [] => ct | _ => kt end in
    let t := match evs with [] => t0 | _ => kt end in
    all_within t0 kt evs = true ->
    0 < t -> late t env ->
    exists s',
      ChunkedStream.collect (presend pre (ChunkedStream.__init__ ct kt))
        (map (fun p => Sends (fst p) (snd p)) evs ++ env :: tail)
      = Some (Raise (TimeoutError "synthesis timed out"), s')
      /\ Chan.closed (_event_ch s') = false
      /\ status (_task s') = Running
      /\ _timeout s' = t.
Proof.
  intros ct kt pre evs env tail t0 t Hw Hpos Hl.
  set (s := presend pre (ChunkedStream.__init__ ct kt)).
  assert (Es : s = mkCore (Chan.mk pre false)
                     (add_done_callback create_task CloseEventCh) ct kt ct).
  { subst s. unfold ChunkedStream.__init__.
    rewrite CollectFacts.presend_running by reflexivity. reflexivity. }
  set (s1 := mkCore (Chan.mk [] false)
               (add_done_callback create_task CloseEventCh) ct kt t0).
  exists (set_timeout s1 t).
  split; [|repeat split].
  unfold ChunkedStream.collect, ChunkedStream.collect_fuel.
  set (script := map (fun p => Sends (fst p) (snd p)) evs ++ env :: tail).
  replace (S (List.length (Chan.queue (_event_ch s)) + List.length script))
    with (List.length pre + S (List.length script))%nat
    by (rewrite Es; cbn; lia).
  rewrite (@CollectFacts.collect_loop_buffered pre s) by (now rewrite Es).
  rewrite Es.
  cbn [_event_ch _task _connect_timeout _keepalive_timeout _timeout
       Chan.closed app].
  fold t0. fold s1. subst script.
  rewrite (@collect_loop_late evs s1); try assumption.
  - reflexivity.
  - repeat split.
  - rewrite length_app, length_map. cbn. lia.
Qed.

(** One frame arrives in time, the second takes three seconds under a
    keepalive timeout of two. *)
Lemma collect_passes_timeout_on_witness :
  exists s',
    ChunkedStream.collect (presend [] (ChunkedStream.__init__ 1 2))
      [Sends (1#2) event1; Sends 3 event2; Terminates 0 Succeeded]
    = Some (Raise (TimeoutError "synthesis timed out"), s')
    /\ Chan.closed (_event_ch s') = false.
Proof.
  assert (Hpos : 0 < 2) by reflexivity.
  assert (Hl : late 2 (Sends 3 event2)) by (cbn; discriminate).
  destruct (@collect_passes_timeout_on 1 2 [] [((1#2)%Q, event1)]
              (Sends 3 event2) [Terminates 0 Succeeded] eq_refl Hpos Hl)
    as (s' & H1 & H2 & _).
  exists s'. split; [exact H1 | exact H2].
Defined.

(** ** X10: [collect] returns only from an exhausted stream *)

Lemma collect_loop_returns fuel : forall s script acc frames s',
  core_wf s ->
  ChunkedStream.collect_loop fuel s script acc = Some (Return frames, s') ->
  exhausted s' /\ exists more, frames = acc ++ more.
Proof.
  induction fuel as [|fuel IH]; intros s script acc frames s' Hwf H;
    [discriminate H|].
  cbn [ChunkedStream.collect_loop] in H. unfold ChunkedStream.__anext__ in H.
  pose proof (core_anext_wf (hd Silent script) Hwf) as Hwf'.
  destruct (core_anext s (hd Silent script)) as [r s1] eqn:E.
  cbn [snd] in Hwf'.
  destruct r as [ev | e |].
  - destruct (IH _ _ _ _ _ Hwf' H) as [Hex [more Hm]].
    split; [exact Hex|]. exists (frame ev :: more).
    rewrite Hm, <- app_assoc. reflexivity.
  - destruct e; try discriminate H.
    inversion H; subst.
    destruct (@core_anext_stop_exhausted _ _ _ Hwf E) as [Hex _].
    split; [exact Hex|]. exists []. now rewrite app_nil_r.
  - discriminate H.
Qed.

(** X10.  Whatever the task does, when [collect] returns a frame the
    stream it was called on is exhausted: nothing is buffered, the event
    channel is closed and the task is done, so a later [__anext__] signals
    the end of the stream and [aclose] finds nothing to do.  [collect] never
    returns a frame from a stream that is still open. *)
Theorem collect_returns_only_exhausted :
  forall (ct kt : Q) (ops : list CoreOp) (script : list Arrival)
         (f : AudioFrame) (s' : ChunkedStream.t),
    ChunkedStream.collect (fst (core_run ops (ChunkedStream.__init__ ct kt)))
      script = Some (Return f, s') ->
    exhausted s'
    /\ ChunkedStream.aclose s' = s'
    /\ forall env, ChunkedStream.__anext__ s' env = (Raise StopAsyncIteration, s').
Proof.
  intros ct kt ops script f s' H.
  unfold ChunkedStream.collect in H.
  destruct (ChunkedStream.collect_loop _ _ script [])
    as [[[frames | e |] s1]|] eqn:E; try discriminate H.
  assert (s1 = s') by (inversion H; reflexivity). subst s1.
  destruct (collect_loop_returns _ _ _ (chunked_reachable_wf ct kt ops) E)
    as [Hex _].
  split; [exact Hex|].
  destruct Hex as (Hq & Hc & o & Hs). split.
  - unfold ChunkedStream.aclose. now apply (@core_aclose_finished s' o).
  - intros env. unfold ChunkedStream.__anext__. now apply core_anext_exhausted.
Qed.

Lemma collect_returns_only_exhausted_witness :
  exists s',
    ChunkedStream.collect
      (fst (core_run [CTaskSend event1] (ChunkedStream.__init__ 0 0)))
      [Sends 7 event2; Terminates 9 Cancelled]
    = Some (Return (mkAudioFrame [1; 2; 3]%Z 24000 1), s')
    /\ exhausted s'.
Proof.
  eexists. split.
  - reflexivity.
  - exact (proj1 (@collect_returns_only_exhausted 0 0 [CTaskSend event1]
                    [Sends 7 event2; Terminates 9 Cancelled] _ _ eq_refl)).
Defined.
